(** * WebRTCClient (js/webrtc-client.js): call session and signaling

    A shallow embedding of the [WebRTCClient] class.  The instance fields
    ([ws], [pc], [localStream], the three flags) are fields of [State]; the
    browser objects they point to (WebSocket, RTCPeerConnection, MediaStream)
    live in three stores indexed by handle, so that an object survives the
    field that pointed to it being set to [null].  Everything the class does
    to the outside (a frame handed to [ws.send], a callback invocation, a
    console line, a [fetch]) is appended to [trace] in program order.

    The methods are [async]; every [await] takes its outcome from an [Env]
    value passed to the handler.  The class is embedded twice.  In the
    first reading ([M], [step], [run]) a handler runs from its first
    statement to its last with nothing interleaved at its [await] points:
    this is what a handler does by itself.  In the second ([P], [Async],
    [act], [schedule]) a handler stops at every [await] and is resumed
    later, other handlers running in between, as the event loop does it;
    the first reading is the second with every handler resumed at once
    ([start_agrees]). *)

From Stdlib Require Import String List Bool Arith Lia.
From stdpp Require Import base list strings.
Import ListNotations.

Open Scope string_scope.
Open Scope list_scope.

(** ** Values exchanged with the browser *)

Inductive TrackKind := Video | Audio.

Inductive TrackState := Live | Ended.

(** A MediaStreamTrack: [kind], [enabled], [readyState]. *)
Record Track := mkTrack {
  kind : TrackKind;
  enabled : bool;
  readyState : TrackState
}.

(** A MediaStream is the list [getTracks()] returns. *)
Abbreviation MediaStream := (list Track) (only parsing).

Inductive SdpType := SdpOffer | SdpAnswer.

(** An RTCSessionDescription(Init): [type] and the opaque [sdp] text. *)
Record SessionDescription := mkDesc {
  sd_type : SdpType;
  sd_sdp : string
}.

(** An ICE candidate descriptor, opaque to the client. *)
Abbreviation IceCandidate := string (only parsing).

(** A thrown value; only [error.message] is ever read. *)
Record JsError := mkError { message : string }.

Inductive result (A : Type) :=
| Ok (a : A)
| Throw (e : JsError).
Arguments Ok {A} a.
Arguments Throw {A} e.

(** The object a signaling frame is parsed to / serialised from. *)
Record Message := mkMessage {
  msg_type : string;
  msg_sessionId : option string;
  msg_sdp : option SessionDescription;
  msg_candidate : option IceCandidate;
  msg_userId : option string;
  msg_userType : option string
}.

Inductive ReadyState := CONNECTING | OPEN | CLOSING | CLOSED.

Record WebSocket := mkWebSocket { ws_readyState : ReadyState }.

(** The part of an RTCPeerConnection the client reads or drives.
    [pc_senders] holds (stream handle, track index) pairs given to
    [addTrack]; [pc_candidates] the candidates [addIceCandidate] accepted. *)
Record PeerConnection := mkPeerConnection {
  pc_localDescription : option SessionDescription;
  pc_remoteDescription : option SessionDescription;
  pc_senders : list (nat * nat);
  pc_candidates : list IceCandidate;
  pc_connectionState : string;
  pc_closed : bool
}.

Inductive Event :=
| WsSend (h : nat) (m : Message)
| OnLocalStream (h : nat)
| OnRemoteStream (h : option nat)
| OnConnectionStateChange (s : string)
| OnError (s : string)
| OnCallEnded
| ConsoleLog (args : list string)
| ConsoleError (args : list string)
| Fetch (url : string).

(** Outcomes of the awaited browser calls of one handler run.  [typeError]
    is the error the engine raises in that run when a statement reads a
    member of [null] or builds a description or a candidate from
    [undefined]; its text is the browser's and differs between browsers.
    Such an error leaves the [try] block, so a run raises at most one. *)
Record Env := mkEnv {
  getUserMedia : result MediaStream;
  createOffer : result string;
  createAnswer : result string;
  setLocalDescription : result unit;
  setRemoteDescription : result unit;
  addIceCandidate : result unit;
  fetch : result unit;
  typeError : JsError
}.

(** ** The instance and its world *)

(** Fields assigned once, by the constructor.  [onLocalStream] is not set by
    the class; [hasOnLocalStream] says whether the page installed one. *)
Record Settings := mkSettings {
  apiBaseUrl : string;
  wsEndpoint : string;
  sessionId : option string;
  userId : string;
  userType : string;
  hasOnLocalStream : bool
}.

Record State := mkState {
  settings : Settings;
  ws : option nat;
  pc : option nat;
  localStream : option nat;
  remoteStream : option nat;
  isCallActive : bool;
  isLocalVideoEnabled : bool;
  isLocalAudioEnabled : bool;
  sockets : list WebSocket;
  pcs : list PeerConnection;
  streams : list MediaStream;
  trace : list Event
}.

Definition set_ws (v : option nat) (s : State) : State :=
  mkState (settings s) v (pc s) (localStream s) (remoteStream s)
    (isCallActive s) (isLocalVideoEnabled s) (isLocalAudioEnabled s)
    (sockets s) (pcs s) (streams s) (trace s).

Definition set_pc (v : option nat) (s : State) : State :=
  mkState (settings s) (ws s) v (localStream s) (remoteStream s)
    (isCallActive s) (isLocalVideoEnabled s) (isLocalAudioEnabled s)
    (sockets s) (pcs s) (streams s) (trace s).

Definition set_localStream (v : option nat) (s : State) : State :=
  mkState (settings s) (ws s) (pc s) v (remoteStream s)
    (isCallActive s) (isLocalVideoEnabled s) (isLocalAudioEnabled s)
    (sockets s) (pcs s) (streams s) (trace s).

Definition set_remoteStream (v : option nat) (s : State) : State :=
  mkState (settings s) (ws s) (pc s) (localStream s) v
    (isCallActive s) (isLocalVideoEnabled s) (isLocalAudioEnabled s)
    (sockets s) (pcs s) (streams s) (trace s).

Definition set_isCallActive (v : bool) (s : State) : State :=
  mkState (settings s) (ws s) (pc s) (localStream s) (remoteStream s)
    v (isLocalVideoEnabled s) (isLocalAudioEnabled s)
    (sockets s) (pcs s) (streams s) (trace s).

Definition set_isLocalVideoEnabled (v : bool) (s : State) : State :=
  mkState (settings s) (ws s) (pc s) (localStream s) (remoteStream s)
    (isCallActive s) v (isLocalAudioEnabled s)
    (sockets s) (pcs s) (streams s) (trace s).

Definition set_isLocalAudioEnabled (v : bool) (s : State) : State :=
  mkState (settings s) (ws s) (pc s) (localStream s) (remoteStream s)
    (isCallActive s) (isLocalVideoEnabled s) v
    (sockets s) (pcs s) (streams s) (trace s).

Definition set_sockets (v : list WebSocket) (s : State) : State :=
  mkState (settings s) (ws s) (pc s) (localStream s) (remoteStream s)
    (isCallActive s) (isLocalVideoEnabled s) (isLocalAudioEnabled s)
    v (pcs s) (streams s) (trace s).

Definition set_pcs (v : list PeerConnection) (s : State) : State :=
  mkState (settings s) (ws s) (pc s) (localStream s) (remoteStream s)
    (isCallActive s) (isLocalVideoEnabled s) (isLocalAudioEnabled s)
    (sockets s) v (streams s) (trace s).

Definition set_streams (v : list MediaStream) (s : State) : State :=
  mkState (settings s) (ws s) (pc s) (localStream s) (remoteStream s)
    (isCallActive s) (isLocalVideoEnabled s) (isLocalAudioEnabled s)
    (sockets s) (pcs s) v (trace s).

Definition set_trace (v : list Event) (s : State) : State :=
  mkState (settings s) (ws s) (pc s) (localStream s) (remoteStream s)
    (isCallActive s) (isLocalVideoEnabled s) (isLocalAudioEnabled s)
    (sockets s) (pcs s) (streams s) v.

(** ** Handlers as state transformers that may throw

    A thrown exception keeps the assignments made before it, as in
    JavaScript. *)

Definition M (A : Type) : Type := State -> State * result A.

Definition ret {A} (a : A) : M A := fun s => (s, Ok a).

Definition bind {A B} (m : M A) (k : A -> M B) : M B :=
  fun s =>
    match m s with
    | (s', Ok a) => k a s'
    | (s', Throw e) => (s', Throw e)
    end.

Definition throw {A} (e : JsError) : M A := fun s => (s, Throw e).

(** [try { m } catch (e) { h e }] *)
Definition try_catch (m : M unit) (h : JsError -> M unit) : M unit :=
  fun s =>
    match m s with
    | (s', Ok a) => (s', Ok a)
    | (s', Throw e) => h e s'
    end.

(** [await p] where the promise settles as [r], in a handler that is
    resumed at once: nothing runs between the call and its outcome.  (See
    [Async.await] for the handler that is suspended.) *)
Definition await {A} (r : result A) : M A := fun s => (s, r).

Definition gets {A} (f : State -> A) : M A := fun s => (s, Ok (f s)).

Definition modify (f : State -> State) : M unit := fun s => (f s, Ok tt).

Definition emit (e : Event) : M unit :=
  modify (fun s => set_trace (trace s ++ [e]) s).

Definition when (b : bool) (m : M unit) : M unit :=
  if b then m else ret tt.

Declare Scope js_scope.
Delimit Scope js_scope with js.
Notation "x <- m ;; k" := (bind m (fun x => k))
  (at level 100, m at next level, right associativity) : js_scope.
Notation "m ;; k" := (bind m (fun _ => k))
  (at level 100, right associativity) : js_scope.
Open Scope js_scope.

(** The state a handler leaves behind. *)
Definition exec {A} (m : M A) (s : State) : State := fst (m s).

(** ** Small pieces of JavaScript *)

(** [x || d] on a string that may be missing: the empty string is falsy. *)
Definition or_default (x : option string) (d : string) : string :=
  match x with
  | Some s => if String.eqb s "" then d else s
  | None => d
  end.

(** [x || null] *)
Definition or_null (x : option string) : option string :=
  match x with
  | Some s => if String.eqb s "" then None else Some s
  | None => None
  end.

(** [if (x)] on a string-or-null. *)
Definition truthy (x : option string) : bool :=
  match x with
  | Some s => negb (String.eqb s "")
  | None => false
  end.

(** [!x] on an object-or-null. *)
Definition is_null {A} (x : option A) : bool :=
  match x with
  | Some _ => false
  | None => true
  end.

Definition kind_eqb (a b : TrackKind) : bool :=
  match a, b with
  | Video, Video | Audio, Audio => true
  | _, _ => false
  end.

(** Index in [getTracks()] of [getVideoTracks()[0]] / [getAudioTracks()[0]]. *)
Fixpoint first_of_kind (k : TrackKind) (ts : MediaStream) : option nat :=
  match ts with
  | [] => None
  | t :: ts' =>
      if kind_eqb (kind t) k then Some 0
      else option_map S (first_of_kind k ts')
  end.

Definition set_enabled (b : bool) (t : Track) : Track :=
  mkTrack (kind t) b (readyState t).

(** [track.stop()] *)
Definition stop (t : Track) : Track :=
  mkTrack (kind t) (enabled t) Ended.

(** ** The class *)

Record Config := mkConfig {
  cfg_apiBaseUrl : option string;
  cfg_wsEndpoint : option string;
  cfg_sessionId : option string;
  cfg_userId : option string;
  cfg_userType : option string
}.

(** [constructor(config)].  The four callbacks default to no-ops; an
    invocation is recorded in the trace either way. *)
Definition constructor (config : Config) (onLocal : bool) : State :=
  {| settings :=
       {| apiBaseUrl := or_default (cfg_apiBaseUrl config) "";
          wsEndpoint := or_default (cfg_wsEndpoint config) "";
          sessionId := or_null (cfg_sessionId config);
          userId := or_default (cfg_userId config) "";
          userType := or_default (cfg_userType config) "patient";
          hasOnLocalStream := onLocal |};
     ws := None;
     pc := None;
     localStream := None;
     remoteStream := None;
     isCallActive := false;
     isLocalVideoEnabled := true;
     isLocalAudioEnabled := true;
     sockets := [];
     pcs := [];
     streams := [];
     trace := [] |}.

Definition is_OPEN (r : ReadyState) : bool :=
  match r with OPEN => true | _ => false end.

(** [this.ws && this.ws.readyState === WebSocket.OPEN]: the handle of the
    socket when the test passes. *)
Definition ws_open (s : State) : option nat :=
  match ws s with
  | Some h =>
      match sockets s !! h with
      | Some sock => if is_OPEN (ws_readyState sock) then Some h else None
      | None => None
      end
  | None => None
  end.

(** [sendWebSocketMessage(message)] *)
Definition sendWebSocketMessage (message : Message) : M unit :=
  o <- gets ws_open ;;
  match o with
  | Some h => emit (WsSend h message)
  | None => emit (ConsoleError ["WebSocket not connected"])
  end.

Definition offer_message (sid : option string) (d : SessionDescription) : Message :=
  mkMessage "offer" sid (Some d) None None None.

Definition answer_message (sid : option string) (d : SessionDescription) : Message :=
  mkMessage "answer" sid (Some d) None None None.

Definition ice_message (sid : option string) (c : IceCandidate) : Message :=
  mkMessage "ice-candidate" sid None (Some c) None None.

Definition call_ended_message (sid : option string) : Message :=
  mkMessage "call-ended" sid None None None None.

Definition join_message (sid : option string) (uid utype : string) : Message :=
  mkMessage "join" sid None None (Some uid) (Some utype).

(** The peer connection [new RTCPeerConnection(rtcConfig)] returns. *)
Definition new_pc : PeerConnection :=
  mkPeerConnection None None [] [] "new" false.

(** [createPeerConnection()]: always a new object, stored in [this.pc]. *)
Definition createPeerConnection : M unit :=
  modify (fun s => set_pc (Some (length (pcs s))) (set_pcs (pcs s ++ [new_pc]) s)).

(** Evaluate [this.pc.<member>]: the engine's error when [this.pc] is
    null. *)
Definition this_pc (env : Env) : M nat :=
  o <- gets pc ;;
  match o with
  | Some p => ret p
  | None => throw (typeError env)
  end.

Definition update_pc (p : nat) (f : PeerConnection -> PeerConnection) : M unit :=
  modify (fun s => set_pcs (alter f p (pcs s)) s).

Definition with_localDescription (d : SessionDescription) (c : PeerConnection) :=
  mkPeerConnection (Some d) (pc_remoteDescription c) (pc_senders c)
    (pc_candidates c) (pc_connectionState c) (pc_closed c).

Definition with_remoteDescription (d : SessionDescription) (c : PeerConnection) :=
  mkPeerConnection (pc_localDescription c) (Some d) (pc_senders c)
    (pc_candidates c) (pc_connectionState c) (pc_closed c).

Definition with_senders (l : list (nat * nat)) (c : PeerConnection) :=
  mkPeerConnection (pc_localDescription c) (pc_remoteDescription c)
    (pc_senders c ++ l) (pc_candidates c) (pc_connectionState c) (pc_closed c).

Definition with_candidate (x : IceCandidate) (c : PeerConnection) :=
  mkPeerConnection (pc_localDescription c) (pc_remoteDescription c)
    (pc_senders c) (pc_candidates c ++ [x]) (pc_connectionState c) (pc_closed c).

Definition with_connectionState (x : string) (c : PeerConnection) :=
  mkPeerConnection (pc_localDescription c) (pc_remoteDescription c)
    (pc_senders c) (pc_candidates c) x (pc_closed c).

(** [pc.close()] *)
Definition closed_pc (c : PeerConnection) :=
  mkPeerConnection (pc_localDescription c) (pc_remoteDescription c)
    (pc_senders c) (pc_candidates c) "closed" true.

(** [this.localStream = await navigator.mediaDevices.getUserMedia(...)]
    followed by the optional [onLocalStream] call. *)
Definition acquire_local_stream (env : Env) : M unit :=
  tracks <- await (getUserMedia env) ;;
  h <- gets (fun s => length (streams s)) ;;
  modify (fun s => set_localStream (Some h) (set_streams (streams s ++ [tracks]) s)) ;;
  has <- gets (fun s => hasOnLocalStream (settings s)) ;;
  when has (emit (OnLocalStream h)).

(** [this.localStream.getTracks().forEach(track =>
      this.pc.addTrack(track, this.localStream))] *)
Definition add_local_tracks (env : Env) : M unit :=
  o <- gets localStream ;;
  match o with
  | None => throw (typeError env)
  | Some h =>
      tracks <- gets (fun s => default [] (streams s !! h)) ;;
      match tracks with
      | [] => ret tt
      | _ :: _ =>
          p <- this_pc env ;;
          update_pc p (with_senders (map (fun i => (h, i)) (seq 0 (length tracks))))
      end
  end.

(** [async startCall()] *)
Definition startCall (env : Env) : M unit :=
  try_catch
    (acquire_local_stream env ;;
     createPeerConnection ;;
     add_local_tracks env ;;
     p <- this_pc env ;;
     sdp <- await (createOffer env) ;;
     let offer := mkDesc SdpOffer sdp in
     p' <- this_pc env ;;
     await (setLocalDescription env) ;;
     update_pc p' (with_localDescription offer) ;;
     sid <- gets (fun s => sessionId (settings s)) ;;
     sendWebSocketMessage (offer_message sid offer) ;;
     modify (set_isCallActive true) ;;
     emit (OnConnectionStateChange "connecting"))
    (fun error =>
       emit (ConsoleError ["Error starting call:"; message error]) ;;
       emit (OnError ("Failed to start call: " +:+ message error))).

(** [new RTCSessionDescription(x)] / [new RTCIceCandidate(x)] on a field
    the frame may lack: with [undefined], the constructor or the call it is
    handed to fails with the engine's error. *)
Definition construct {A} (env : Env) (x : option A) : M A :=
  match x with
  | Some a => ret a
  | None => throw (typeError env)
  end.

(** [async handleOffer(offerSdp)] *)
Definition handleOffer (env : Env) (offerSdp : option SessionDescription) : M unit :=
  try_catch
    (ls <- gets localStream ;;
     when (is_null ls) (acquire_local_stream env) ;;
     cur <- gets pc ;;
     when (is_null cur) (createPeerConnection ;; add_local_tracks env) ;;
     p <- this_pc env ;;
     d <- construct env offerSdp ;;
     await (setRemoteDescription env) ;;
     update_pc p (with_remoteDescription d) ;;
     p1 <- this_pc env ;;
     sdp <- await (createAnswer env) ;;
     let answer := mkDesc SdpAnswer sdp in
     p2 <- this_pc env ;;
     await (setLocalDescription env) ;;
     update_pc p2 (with_localDescription answer) ;;
     sid <- gets (fun s => sessionId (settings s)) ;;
     sendWebSocketMessage (answer_message sid answer) ;;
     modify (set_isCallActive true) ;;
     emit (OnConnectionStateChange "connecting"))
    (fun error =>
       emit (ConsoleError ["Error handling offer:"; message error]) ;;
       emit (OnError ("Failed to handle offer: " +:+ message error))).

(** [async handleAnswer(answerSdp)] *)
Definition handleAnswer (env : Env) (answerSdp : option SessionDescription) : M unit :=
  try_catch
    (cur <- gets pc ;;
     match cur with
     | Some p =>
         d <- construct env answerSdp ;;
         await (setRemoteDescription env) ;;
         update_pc p (with_remoteDescription d)
     | None => ret tt
     end)
    (fun error =>
       emit (ConsoleError ["Error handling answer:"; message error]) ;;
       emit (OnError ("Failed to handle answer: " +:+ message error))).

(** [async handleIceCandidate(candidate)] *)
Definition handleIceCandidate (env : Env) (candidate : option IceCandidate) : M unit :=
  try_catch
    (cur <- gets pc ;;
     match cur with
     | Some p =>
         c <- construct env candidate ;;
         await (addIceCandidate env) ;;
         update_pc p (with_candidate c)
     | None => ret tt
     end)
    (fun error =>
       emit (ConsoleError ["Error handling ICE candidate:"; message error])).

(** [toggleVideo()] *)
Definition toggleVideo : M bool :=
  ls <- gets localStream ;;
  match ls with
  | Some h =>
      tracks <- gets (fun s => default [] (streams s !! h)) ;;
      match first_of_kind Video tracks with
      | Some i =>
          modify (fun s => set_isLocalVideoEnabled (negb (isLocalVideoEnabled s)) s) ;;
          modify (fun s =>
            set_streams
              (alter (alter (set_enabled (isLocalVideoEnabled s)) i) h (streams s)) s) ;;
          gets isLocalVideoEnabled
      | None => ret false
      end
  | None => ret false
  end.

(** [toggleAudio()] *)
Definition toggleAudio : M bool :=
  ls <- gets localStream ;;
  match ls with
  | Some h =>
      tracks <- gets (fun s => default [] (streams s !! h)) ;;
      match first_of_kind Audio tracks with
      | Some i =>
          modify (fun s => set_isLocalAudioEnabled (negb (isLocalAudioEnabled s)) s) ;;
          modify (fun s =>
            set_streams
              (alter (alter (set_enabled (isLocalAudioEnabled s)) i) h (streams s)) s) ;;
          gets isLocalAudioEnabled
      | None => ret false
      end
  | None => ret false
  end.

(** [ws.close()] *)
Definition closing (w : WebSocket) : WebSocket :=
  match ws_readyState w with
  | CONNECTING | OPEN => mkWebSocket CLOSING
  | CLOSING | CLOSED => w
  end.

Definition session_end_url (base sid : string) : string :=
  base +:+ "/sessions/" +:+ sid +:+ "/end".

(** [async endCall()] *)
Definition endCall (env : Env) : M unit :=
  try_catch
    (o <- gets ws_open ;;
     when (negb (is_null o))
       (sid <- gets (fun s => sessionId (settings s)) ;;
        sendWebSocketMessage (call_ended_message sid)) ;;
     cur <- gets pc ;;
     match cur with
     | Some p => update_pc p closed_pc ;; modify (set_pc None)
     | None => ret tt
     end ;;
     ls <- gets localStream ;;
     match ls with
     | Some h =>
         modify (fun s => set_streams (alter (map stop) h (streams s)) s) ;;
         modify (set_localStream None)
     | None => ret tt
     end ;;
     w <- gets ws ;;
     match w with
     | Some h =>
         modify (fun s => set_sockets (alter closing h (sockets s)) s) ;;
         modify (set_ws None)
     | None => ret tt
     end ;;
     modify (set_isCallActive false) ;;
     emit OnCallEnded ;;
     sid <- gets (fun s => sessionId (settings s)) ;;
     when (truthy sid)
       (try_catch
          (base <- gets (fun s => apiBaseUrl (settings s)) ;;
           emit (Fetch (session_end_url base (default "" sid))) ;;
           await (fetch env))
          (fun error =>
             emit (ConsoleError ["Error ending session:"; message error]))))
    (fun error =>
       emit (ConsoleError ["Error ending call:"; message error]) ;;
       emit (OnError ("Failed to end call: " +:+ message error))).

(** [destroy()] *)
Definition destroy (env : Env) : M unit := endCall env.

(** [handleSignalingMessage(message)].  The handlers it starts are not
    awaited; each catches what it throws. *)
Definition handleSignalingMessage (env : Env) (message : Message) : M unit :=
  emit (ConsoleLog ["Received signaling message:"; msg_type message]) ;;
  if String.eqb (msg_type message) "offer" then
    handleOffer env (msg_sdp message)
  else if String.eqb (msg_type message) "answer" then
    handleAnswer env (msg_sdp message)
  else if String.eqb (msg_type message) "ice-candidate" then
    handleIceCandidate env (msg_candidate message)
  else if String.eqb (msg_type message) "call-ended" then
    endCall env
  else
    emit (ConsoleLog ["Unknown message type:"; msg_type message]).

(** [connectWebSocket()]: [created] is whether [new WebSocket(wsUrl)]
    returns or throws; the URL text itself is not modelled. *)
Definition connectWebSocket (created : result unit) : M unit :=
  try_catch
    (await created ;;
     modify (fun s => set_ws (Some (length (sockets s)))
                        (set_sockets (sockets s ++ [mkWebSocket CONNECTING]) s)))
    (fun error =>
       emit (ConsoleError ["Error connecting WebSocket:"; message error])).

(** [this.ws.onopen] *)
Definition ws_onopen : M unit :=
  emit (ConsoleLog ["WebSocket connected"]) ;;
  st <- gets settings ;;
  sendWebSocketMessage (join_message (sessionId st) (userId st) (userType st)).

(** [this.ws.onmessage], the frame already parsed. *)
Definition ws_onmessage (env : Env) (message : Message) : M unit :=
  handleSignalingMessage env message.

(** [this.ws.onerror] *)
Definition ws_onerror : M unit :=
  emit (ConsoleError ["WebSocket error:"]) ;;
  emit (OnError "WebSocket connection error").

(** [this.ws.onclose] *)
Definition ws_onclose : M unit :=
  emit (ConsoleLog ["WebSocket closed"]) ;;
  emit (OnConnectionStateChange "disconnected").

(** [this.pc.ontrack], with [event.streams[0]]. *)
Definition pc_ontrack (stream : option nat) : M unit :=
  emit (ConsoleLog ["Received remote track"]) ;;
  modify (set_remoteStream stream) ;;
  emit (OnRemoteStream stream) ;;
  emit (OnConnectionStateChange "connected").

(** [this.pc.onicecandidate], with [event.candidate]. *)
Definition pc_onicecandidate (candidate : option IceCandidate) : M unit :=
  match candidate with
  | Some c =>
      sid <- gets (fun s => sessionId (settings s)) ;;
      sendWebSocketMessage (ice_message sid c)
  | None => ret tt
  end.

(** [this.pc.onconnectionstatechange]: reads [this.pc.connectionState]. *)
Definition pc_onconnectionstatechange (env : Env) : M unit :=
  p <- this_pc env ;;
  cs <- gets (fun s => default "" (pc_connectionState <$> pcs s !! p)) ;;
  emit (ConsoleLog ["Connection state:"; cs]) ;;
  emit (OnConnectionStateChange cs) ;;
  when (String.eqb cs "failed" || String.eqb cs "disconnected")
    (emit (OnError "Connection failed")).

(** ** Runs of the client

    What can happen to an instance: the page calls a method, or the browser
    changes one of the objects and fires the handler registered on it. *)

Inductive Input :=
| CallConnectWebSocket (created : result unit)
| CallStartCall (env : Env)
| CallToggleVideo
| CallToggleAudio
| CallEndCall (env : Env)
| CallDestroy (env : Env)
| SocketOpen (h : nat)
| SocketMessage (env : Env) (message : Message)
| SocketError
| SocketClose (h : nat)
| PcTrack (stream : option nat)
| PcIceCandidate (candidate : option IceCandidate)
| PcConnectionState (env : Env) (p : nat) (cs : string).

Definition step (i : Input) (s : State) : State :=
  match i with
  | CallConnectWebSocket created => exec (connectWebSocket created) s
  | CallStartCall env => exec (startCall env) s
  | CallToggleVideo => exec toggleVideo s
  | CallToggleAudio => exec toggleAudio s
  | CallEndCall env => exec (endCall env) s
  | CallDestroy env => exec (destroy env) s
  | SocketOpen h =>
      exec ws_onopen (set_sockets (alter (fun _ => mkWebSocket OPEN) h (sockets s)) s)
  | SocketMessage env message => exec (ws_onmessage env message) s
  | SocketError => exec ws_onerror s
  | SocketClose h =>
      exec ws_onclose (set_sockets (alter (fun _ => mkWebSocket CLOSED) h (sockets s)) s)
  | PcTrack stream => exec (pc_ontrack stream) s
  | PcIceCandidate candidate => exec (pc_onicecandidate candidate) s
  | PcConnectionState env p cs =>
      exec (pc_onconnectionstatechange env)
        (set_pcs (alter (with_connectionState cs) p (pcs s)) s)
  end.

Definition run (inputs : list Input) (s : State) : State :=
  fold_left (fun acc i => step i acc) inputs s.

(** ** Reading a trace *)

(** Frames handed to [ws.send], oldest first. *)
Definition sent (t : list Event) : list Message :=
  omap (fun e => match e with WsSend _ m => Some m | _ => None end) t.

(** Arguments of the [onConnectionStateChange] invocations. *)
Definition state_changes (t : list Event) : list string :=
  omap (fun e => match e with OnConnectionStateChange x => Some x | _ => None end) t.

(** Arguments of the [onError] invocations. *)
Definition errors (t : list Event) : list string :=
  omap (fun e => match e with OnError x => Some x | _ => None end) t.

(** Number of [onCallEnded] invocations. *)
Definition call_ended_count (t : list Event) : nat :=
  length (omap (fun e => match e with OnCallEnded => Some tt | _ => None end) t).

(** ** Notions used in the statements *)

(** The tracks of the stream a handle points to, read in state [s]. *)
Definition stream_of (o : option nat) (s : State) : list Track :=
  match o with
  | Some h => default [] (streams s !! h)
  | None => []
  end.

(** The peer connection a handle points to, read in state [s]. *)
Definition pc_of (o : option nat) (s : State) : option PeerConnection :=
  match o with
  | Some p => pcs s !! p
  | None => None
  end.

(** The senders [addTrack] creates for every track of stream [h]. *)
Definition all_tracks_of (h : nat) (tracks : list Track) : list (nat * nat) :=
  map (fun i => (h, i)) (seq 0 (length tracks)).

(** What [sendWebSocketMessage(m)] leaves in the trace. *)
Definition send_event (m : Message) (s : State) : Event :=
  match ws_open s with
  | Some h => WsSend h m
  | None => ConsoleError ["WebSocket not connected"]
  end.

(** The first awaited call of [startCall] that throws, if any. *)
Inductive startCall_throws (env : Env) (e : JsError) : Prop :=
| capture_refused :
    getUserMedia env = Throw e -> startCall_throws env e
| offer_refused tracks :
    getUserMedia env = Ok tracks -> createOffer env = Throw e ->
    startCall_throws env e
| local_description_refused tracks sdp :
    getUserMedia env = Ok tracks -> createOffer env = Ok sdp ->
    setLocalDescription env = Throw e ->
    startCall_throws env e.

(** Whoever holds a peer connection holds a local stream too. *)
Definition capture_held (s : State) : Prop :=
  pc s <> None -> localStream s <> None.

(** [wp m Q s]: running [m] from [s] ends in a state and a result that
    satisfy [Q]. *)
Definition wp {A} (m : M A) (Q : State -> result A -> Prop) (s : State) : Prop :=
  Q (fst (m s)) (snd (m s)).

(** ** A patient's page used in the examples *)

Definition ex_config : Config :=
  mkConfig (Some "https://api.example") (Some "https://ws.example")
    (Some "S1") (Some "patient-7") None.

Definition ex_tracks : MediaStream :=
  [mkTrack Audio true Live; mkTrack Video true Live].

(** Every awaited browser call succeeds. *)
Definition ex_env : Env :=
  mkEnv (Ok ex_tracks) (Ok "v=0 local") (Ok "v=0 reply")
    (Ok tt) (Ok tt) (Ok tt) (Ok tt) (mkError "Invalid RTCSdpType").

(** The camera is refused. *)
Definition ex_env_denied : Env :=
  mkEnv (Throw (mkError "Permission denied")) (Ok "v=0 local") (Ok "v=0 reply")
    (Ok tt) (Ok tt) (Ok tt) (Ok tt) (mkError "Invalid RTCSdpType").

(** Freshly constructed, socket connected and open. *)
Definition ex_joined : State :=
  run [CallConnectWebSocket (Ok tt); SocketOpen 0] (constructor ex_config false).

(** After [startCall()]: the offer is out, no answer yet. *)
Definition ex_calling : State :=
  run [CallStartCall ex_env] ex_joined.

(** Refuses every candidate, as a browser does while no remote description
    is set. *)
Definition ex_env_early : Env :=
  mkEnv (Ok ex_tracks) (Ok "v=0 local") (Ok "v=0 reply")
    (Ok tt) (Ok tt) (Throw (mkError "The remote description was null")) (Ok tt)
    (mkError "Invalid RTCSdpType").

(** ** Further notions *)

(** URLs handed to [fetch], oldest first. *)
Definition fetches (t : list Event) : list string :=
  omap (fun e => match e with Fetch u => Some u | _ => None end) t.

(** A handle is null or points into its store. *)
Definition in_store {A} (o : option nat) (l : list A) : Prop :=
  match o with
  | Some h => h < length l
  | None => True
  end.

Definition handles_valid (s : State) : Prop :=
  in_store (ws s) (sockets s) /\
  in_store (pc s) (pcs s) /\
  in_store (localStream s) (streams s).

(** The frame names session [sid]. *)
Definition carries (sid : option string) (m : Message) : Prop :=
  msg_sessionId m = sid.

(** What every handler keeps: the settings, the validity of the three
    handles, and that every frame sent names the instance's session. *)
Definition kept (s s' : State) : Prop :=
  settings s' = settings s /\
  (handles_valid s -> handles_valid s') /\
  (Forall (carries (sessionId (settings s))) (sent (trace s)) ->
   Forall (carries (sessionId (settings s))) (sent (trace s'))).

(** The ice-candidate frames for [cs], as the socket delivers them. *)
Definition ice_frames (env : Env) (sid : option string) (cs : list IceCandidate)
  : list Input :=
  map (fun x => SocketMessage env (ice_message sid x)) cs.

(** The four frame types [handleSignalingMessage] has a case for. *)
Definition known_type (t : string) : bool :=
  String.eqb t "offer" || String.eqb t "answer" ||
  String.eqb t "ice-candidate" || String.eqb t "call-ended".

(** The test of [pc.onconnectionstatechange] for reporting an error. *)
Definition is_failure (cs : string) : bool :=
  String.eqb cs "failed" || String.eqb cs "disconnected".

(** ** The socket URL

    [connectWebSocket] derives the socket URL from [wsEndpoint] with two
    [String.prototype.replace] calls, then appends the query string. *)

Fixpoint skip (n : nat) (s : string) : string :=
  match n, s with
  | S n', String _ s' => skip n' s'
  | _, _ => s
  end.

(** [s.replace(pat, rep)] for string [pat] and a [rep] without [$]: the
    first occurrence of [pat] is replaced, the rest of [s] is kept. *)
Fixpoint replace (pat rep s : string) : string :=
  if String.prefix pat s then rep +:+ skip (String.length pat) s
  else match s with
       | EmptyString => EmptyString
       | String c s' => String c (replace pat rep s')
       end.

(** [pat] occurs in [s]. *)
Fixpoint occurs (pat s : string) : bool :=
  String.prefix pat s ||
  match s with
  | EmptyString => false
  | String _ s' => occurs pat s'
  end.

(** [this.wsEndpoint.replace('https://', 'wss://').replace('http://', 'ws://')] *)
Definition ws_scheme (endpoint : string) : string :=
  replace "http://" "ws://" (replace "https://" "wss://" endpoint).

(** ** js/admin-script.js

    The part of the page the script touches.  [anchors] lists, for every
    element matched by ['#sidebar .side-menu.top li a'], the index of its
    [parentElement]; [active] says which elements carry the class
    ['active'].  [sidebar] is whether the element with id ['sidebar']
    carries the class ['hide'], or [None] when there is no such element.
    The two displays are [style.display] of the arrows. *)

Record Page := mkPage {
  anchors : list nat;
  active : list bool;
  sidebar : option bool;
  left_display : string;
  right_display : string
}.

(** The click listener of the [k]-th matched anchor:
    [allSideMenu.forEach(i => i.parentElement.classList.remove('active'));
     li.classList.add('active')]. *)
Definition click_menu (k : nat) (pg : Page) : Page :=
  match anchors pg !! k with
  | None => pg
  | Some li =>
      let cleared := fold_left (fun a p => <[p:=false]> a) (anchors pg) (active pg) in
      mkPage (anchors pg) (<[li:=true]> cleared) (sidebar pg)
        (left_display pg) (right_display pg)
  end.

(** The click listener of the left arrow.  [sidebar.classList.toggle] is its
    first statement: with no sidebar it throws before anything changes. *)
Definition click_left (pg : Page) : Page :=
  match sidebar pg with
  | None => pg
  | Some h => mkPage (anchors pg) (active pg) (Some (negb h)) "none" "block"
  end.

(** The click listener of the right arrow.  [sidebar.classList.toggle] is
    its last statement: with no sidebar it throws after the displays were
    set. *)
Definition click_right (pg : Page) : Page :=
  mkPage (anchors pg) (active pg) (option_map negb (sidebar pg)) "block" "none".

Inductive Click := ClickLeft | ClickRight.

Definition click (c : Click) (pg : Page) : Page :=
  match c with
  | ClickLeft => click_left pg
  | ClickRight => click_right pg
  end.

Definition clicks (cs : list Click) (pg : Page) : Page :=
  fold_left (fun acc c => click c acc) cs pg.

(** Arguments of the [onRemoteStream] invocations. *)
Definition remote_streams (t : list Event) : list (option nat) :=
  omap (fun e => match e with OnRemoteStream r => Some r | _ => None end) t.

(** [handleOffer] can capture: it already holds a local stream, or
    [getUserMedia] resolves. *)
Definition capture_available (env : Env) (s : State) : Prop :=
  localStream s <> None \/ exists tracks, getUserMedia env = Ok tracks.

(** The first step of [handleOffer] that throws, if any. *)
Inductive handleOffer_throws (env : Env) (s : State)
    (offerSdp : option SessionDescription) (e : JsError) : Prop :=
| offer_capture_refused :
    localStream s = None -> getUserMedia env = Throw e ->
    handleOffer_throws env s offerSdp e
| offer_description_missing :
    capture_available env s -> offerSdp = None -> e = typeError env ->
    handleOffer_throws env s offerSdp e
| offer_remote_refused d :
    capture_available env s -> offerSdp = Some d ->
    setRemoteDescription env = Throw e ->
    handleOffer_throws env s offerSdp e
| offer_answer_refused d :
    capture_available env s -> offerSdp = Some d ->
    setRemoteDescription env = Ok tt -> createAnswer env = Throw e ->
    handleOffer_throws env s offerSdp e
| offer_local_refused d sdp :
    capture_available env s -> offerSdp = Some d ->
    setRemoteDescription env = Ok tt -> createAnswer env = Ok sdp ->
    setLocalDescription env = Throw e ->
    handleOffer_throws env s offerSdp e.

(** No step of [handleOffer] throws; [sdp] is the answer it gets. *)
Definition handleOffer_passes (env : Env) (s : State)
    (offerSdp : option SessionDescription) (d : SessionDescription)
    (sdp : string) : Prop :=
  capture_available env s /\ offerSdp = Some d /\
  setRemoteDescription env = Ok tt /\ createAnswer env = Ok sdp /\
  setLocalDescription env = Ok tt.

(** Refuses a remote offer, as a browser does for a peer connection whose
    own offer is pending. *)
Definition ex_env_glare : Env :=
  mkEnv (Ok ex_tracks) (Ok "v=0 local") (Ok "v=0 reply") (Ok tt)
    (Throw (mkError "Called in wrong state: have-local-offer")) (Ok tt) (Ok tt)
    (mkError "Invalid RTCSdpType").

(** ** Handlers that can be suspended

    An [async] method runs up to its first [await], hands a promise to its
    caller and is resumed by the event loop once the awaited call has
    settled.  While it is suspended, other handlers run on the same
    instance.  A [Task] is what is left of a handler: nothing ([Done]), or
    the statements after the [await] it is suspended at, which run up to the
    next [await] when the task is resumed. *)

#[warnings="-register-all"]
Inductive Task (A : Type) : Type :=
| Done (r : result A)
| Suspended (k : State -> State * Task A).
Arguments Done {A} r.
Arguments Suspended {A} k.

(** A handler that may suspend: from a state it runs to the state at its
    first [await], or at its end. *)
Definition P (A : Type) : Type := State -> State * Task A.

(** Resume [t], and what it leaves, without letting anything else run in
    between. *)
Fixpoint finish {A} (t : Task A) (s : State) : State * result A :=
  match t with
  | Done r => (s, r)
  | Suspended k => let (s', t') := k s in finish t' s'
  end.

(** Run a handler from its first statement to its last with nothing else
    interleaved. *)
Definition atomic {A} (p : P A) : M A :=
  fun s => let (s', t) := p s in finish t s'.

(** The statements [k] that follow a handler of which [t] is left. *)
Fixpoint bind_task {A B} (t : Task A) (k : A -> P B) : P B :=
  fun s =>
    match t with
    | Done (Ok a) => k a s
    | Done (Throw e) => (s, Done (Throw e))
    | Suspended c =>
        (s, Suspended (fun s1 => let (s2, t') := c s1 in bind_task t' k s2))
    end.

(** What is left of a [try] block, with its [catch] clause [h]. *)
Fixpoint catch_task (t : Task unit) (h : JsError -> P unit) : P unit :=
  fun s =>
    match t with
    | Done (Ok a) => (s, Done (Ok a))
    | Done (Throw e) => h e s
    | Suspended c =>
        (s, Suspended (fun s1 => let (s2, t') := c s1 in catch_task t' h s2))
    end.

Module Async.

(** Statements that do not suspend. *)
Definition lift {A} (m : M A) : P A :=
  fun s => let (s', r) := m s in (s', Done r).

Definition ret {A} (a : A) : P A := fun s => (s, Done (Ok a)).

Definition bind {A B} (m : P A) (k : A -> P B) : P B :=
  fun s => let (s', t) := m s in bind_task t k s'.

Definition try_catch (m : P unit) (h : JsError -> P unit) : P unit :=
  fun s => let (s', t) := m s in catch_task t h s'.

(** [await p]: the handler is suspended here; when it is resumed the
    promise has settled as [r]. *)
Definition await {A} (r : result A) : P A :=
  fun s => (s, Suspended (fun s' => (s', Done r))).

Definition when (b : bool) (m : P unit) : P unit :=
  if b then m else ret tt.

Declare Scope async_scope.
Delimit Scope async_scope with async.
Notation "x <- m ;; k" := (bind m (fun x => k))
  (at level 100, m at next level, right associativity) : async_scope.
Notation "m ;; k" := (bind m (fun _ => k))
  (at level 100, right associativity) : async_scope.
Local Open Scope async_scope.

Definition acquire_local_stream (env : Env) : P unit :=
  tracks <- await (getUserMedia env) ;;
  h <- lift (gets (fun s => length (streams s))) ;;
  lift (modify (fun s =>
          set_localStream (Some h) (set_streams (streams s ++ [tracks]) s))) ;;
  has <- lift (gets (fun s => hasOnLocalStream (settings s))) ;;
  when has (lift (emit (OnLocalStream h))).

(** [async startCall()] *)
Definition startCall (env : Env) : P unit :=
  try_catch
    (acquire_local_stream env ;;
     lift createPeerConnection ;;
     lift (add_local_tracks env) ;;
     p <- lift (this_pc env) ;;
     sdp <- await (createOffer env) ;;
     let offer := mkDesc SdpOffer sdp in
     p' <- lift (this_pc env) ;;
     await (setLocalDescription env) ;;
     lift (update_pc p' (with_localDescription offer)) ;;
     sid <- lift (gets (fun s => sessionId (settings s))) ;;
     lift (sendWebSocketMessage (offer_message sid offer)) ;;
     lift (modify (set_isCallActive true)) ;;
     lift (emit (OnConnectionStateChange "connecting")))
    (fun error =>
       lift (emit (ConsoleError ["Error starting call:"; message error])) ;;
       lift (emit (OnError ("Failed to start call: " +:+ message error)))).

(** [async handleOffer(offerSdp)] *)
Definition handleOffer (env : Env) (offerSdp : option SessionDescription) : P unit :=
  try_catch
    (ls <- lift (gets localStream) ;;
     when (is_null ls) (acquire_local_stream env) ;;
     cur <- lift (gets pc) ;;
     when (is_null cur) (lift createPeerConnection ;; lift (add_local_tracks env)) ;;
     p <- lift (this_pc env) ;;
     d <- lift (construct env offerSdp) ;;
     await (setRemoteDescription env) ;;
     lift (update_pc p (with_remoteDescription d)) ;;
     p1 <- lift (this_pc env) ;;
     sdp <- await (createAnswer env) ;;
     let answer := mkDesc SdpAnswer sdp in
     p2 <- lift (this_pc env) ;;
     await (setLocalDescription env) ;;
     lift (update_pc p2 (with_localDescription answer)) ;;
     sid <- lift (gets (fun s => sessionId (settings s))) ;;
     lift (sendWebSocketMessage (answer_message sid answer)) ;;
     lift (modify (set_isCallActive true)) ;;
     lift (emit (OnConnectionStateChange "connecting")))
    (fun error =>
       lift (emit (ConsoleError ["Error handling offer:"; message error])) ;;
       lift (emit (OnError ("Failed to handle offer: " +:+ message error)))).

(** [async handleAnswer(answerSdp)] *)
Definition handleAnswer (env : Env) (answerSdp : option SessionDescription) : P unit :=
  try_catch
    (cur <- lift (gets pc) ;;
     match cur with
     | Some p =>
         d <- lift (construct env answerSdp) ;;
         await (setRemoteDescription env) ;;
         lift (update_pc p (with_remoteDescription d))
     | None => ret tt
     end)
    (fun error =>
       lift (emit (ConsoleError ["Error handling answer:"; message error])) ;;
       lift (emit (OnError ("Failed to handle answer: " +:+ message error)))).

(** [async handleIceCandidate(candidate)] *)
Definition handleIceCandidate (env : Env) (candidate : option IceCandidate) : P unit :=
  try_catch
    (cur <- lift (gets pc) ;;
     match cur with
     | Some p =>
         c <- lift (construct env candidate) ;;
         await (addIceCandidate env) ;;
         lift (update_pc p (with_candidate c))
     | None => ret tt
     end)
    (fun error =>
       lift (emit (ConsoleError ["Error handling ICE candidate:"; message error]))).

(** [async endCall()] *)
Definition endCall (env : Env) : P unit :=
  try_catch
    (o <- lift (gets ws_open) ;;
     when (negb (is_null o))
       (sid <- lift (gets (fun s => sessionId (settings s))) ;;
        lift (sendWebSocketMessage (call_ended_message sid))) ;;
     cur <- lift (gets pc) ;;
     match cur with
     | Some p => lift (update_pc p closed_pc) ;; lift (modify (set_pc None))
     | None => ret tt
     end ;;
     ls <- lift (gets localStream) ;;
     match ls with
     | Some h =>
         lift (modify (fun s => set_streams (alter (map stop) h (streams s)) s)) ;;
         lift (modify (set_localStream None))
     | None => ret tt
     end ;;
     w <- lift (gets ws) ;;
     match w with
     | Some h =>
         lift (modify (fun s => set_sockets (alter closing h (sockets s)) s)) ;;
         lift (modify (set_ws None))
     | None => ret tt
     end ;;
     lift (modify (set_isCallActive false)) ;;
     lift (emit OnCallEnded) ;;
     sid <- lift (gets (fun s => sessionId (settings s))) ;;
     when (truthy sid)
       (try_catch
          (base <- lift (gets (fun s => apiBaseUrl (settings s))) ;;
           lift (emit (Fetch (session_end_url base (default "" sid)))) ;;
           await (fetch env))
          (fun error =>
             lift (emit (ConsoleError ["Error ending session:"; message error])))))
    (fun error =>
       lift (emit (ConsoleError ["Error ending call:"; message error])) ;;
       lift (emit (OnError ("Failed to end call: " +:+ message error)))).

(** [destroy()] *)
Definition destroy (env : Env) : P unit := endCall env.

(** [handleSignalingMessage(message)]: it starts the handler and returns
    at the handler's first [await]; what is left of the handler is resumed
    later. *)
Definition handleSignalingMessage (env : Env) (message : Message) : P unit :=
  lift (emit (ConsoleLog ["Received signaling message:"; msg_type message])) ;;
  if String.eqb (msg_type message) "offer" then
    handleOffer env (msg_sdp message)
  else if String.eqb (msg_type message) "answer" then
    handleAnswer env (msg_sdp message)
  else if String.eqb (msg_type message) "ice-candidate" then
    handleIceCandidate env (msg_candidate message)
  else if String.eqb (msg_type message) "call-ended" then
    endCall env
  else
    lift (emit (ConsoleLog ["Unknown message type:"; msg_type message])).

End Async.

(** What an input starts.  The methods and listeners without an [await]
    run to their end, as in [step]; for a browser event the object changes
    first, then the listener runs. *)
Definition start (i : Input) : P unit :=
  match i with
  | CallConnectWebSocket created => Async.lift (connectWebSocket created)
  | CallStartCall env => Async.startCall env
  | CallToggleVideo => Async.lift (toggleVideo ;; ret tt)
  | CallToggleAudio => Async.lift (toggleAudio ;; ret tt)
  | CallEndCall env => Async.endCall env
  | CallDestroy env => Async.destroy env
  | SocketOpen h =>
      Async.lift
        (modify (fun s =>
           set_sockets (alter (fun _ => mkWebSocket OPEN) h (sockets s)) s) ;;
         ws_onopen)
  | SocketMessage env message => Async.handleSignalingMessage env message
  | SocketError => Async.lift ws_onerror
  | SocketClose h =>
      Async.lift
        (modify (fun s =>
           set_sockets (alter (fun _ => mkWebSocket CLOSED) h (sockets s)) s) ;;
         ws_onclose)
  | PcTrack stream => Async.lift (pc_ontrack stream)
  | PcIceCandidate candidate => Async.lift (pc_onicecandidate candidate)
  | PcConnectionState env p cs =>
      Async.lift
        (modify (fun s =>
           set_pcs (alter (with_connectionState cs) p (pcs s)) s) ;;
         pc_onconnectionstatechange env)
  end.

(** The instance together with the handlers started so far, in the order
    they were started; a handler that has run to its end stays in the list
    as [Done]. *)
Record World := mkWorld {
  state : State;
  tasks : list (Task unit)
}.




(** The [j]-th handler started has run to its end. *)
Definition completed (j : nat) (w : World) : Prop :=
  exists r, tasks w !! j = Some (Done r).


(** [p], run with nothing interleaved, is the handler [m]. *)
Definition agrees {A} (p : P A) (m : M A) : Prop :=
  forall s, atomic p s = m s.


(** * Properties *)

#[local] Arguments sent : simpl never.
#[local] Arguments state_changes : simpl never.
#[local] Arguments errors : simpl never.
#[local] Arguments call_ended_count : simpl never.

Section TraceLemmas.

Lemma sent_app t u : sent (t ++ u) = sent t ++ sent u.
Proof. apply omap_app. Qed.

Lemma state_changes_app t u :
  state_changes (t ++ u) = state_changes t ++ state_changes u.
Proof. apply omap_app. Qed.

Lemma errors_app t u : errors (t ++ u) = errors t ++ errors u.
Proof. apply omap_app. Qed.

Lemma call_ended_count_app t u :
  call_ended_count (t ++ u) = call_ended_count t + call_ended_count u.
Proof. unfold call_ended_count. now rewrite omap_app, length_app. Qed.

(** A console line is none of the observable events. *)
Lemma sent_log t l : sent (t ++ [ConsoleLog l]) = sent t.
Proof. rewrite sent_app. apply app_nil_r. Qed.

Lemma state_changes_log t l :
  state_changes (t ++ [ConsoleLog l]) = state_changes t.
Proof. rewrite state_changes_app. apply app_nil_r. Qed.

Lemma errors_log t l : errors (t ++ [ConsoleLog l]) = errors t.
Proof. rewrite errors_app. apply app_nil_r. Qed.

Lemma call_ended_count_log t l :
  call_ended_count (t ++ [ConsoleLog l]) = call_ended_count t.
Proof. rewrite call_ended_count_app. apply Nat.add_0_r. Qed.

End TraceLemmas.

Create Rewrite HintDb trace_db.

#[local] Hint Rewrite sent_app state_changes_app errors_app
  call_ended_count_app : trace_db.
#[local] Hint Rewrite app_nil_r Nat.add_0_r : trace_db.
#[local] Hint Rewrite <- app_assoc : trace_db.

Lemma lookup_snoc {A} (l : list A) (x : A) : (l ++ [x]) !! length l = Some x.
Proof. now apply list_lookup_middle. Qed.

Lemma alter_snoc {A} (f : A -> A) (l : list A) (x : A) :
  alter f (length l) (l ++ [x]) = l ++ [f x].
Proof.
  induction l as [|y l IH]; cbn; [reflexivity|]. f_equal. exact IH.
Qed.

Lemma prefix_append (p x : string) : String.prefix p (p +:+ x) = true.
Proof.
  induction p as [|c p IH]; [now destruct x|].
  change (String c p +:+ x) with (String c (p +:+ x)).
  cbn [String.prefix]. destruct (Ascii.ascii_dec c c); [exact IH | congruence].
Qed.

(** ** Rules for running a handler step by step *)

Section Rules.

Context {A B : Type}.
Implicit Types (Q : State -> result A -> Prop) (s : State).

Lemma wp_ret (a : A) Q s : Q s (Ok a) -> wp (ret a) Q s.
Proof. exact id. Qed.

Lemma wp_throw e Q s : Q s (Throw e) -> wp (throw e) Q s.
Proof. exact id. Qed.

Lemma wp_await (r : result A) Q s : Q s r -> wp (await r) Q s.
Proof. exact id. Qed.

Lemma wp_gets (f : State -> A) Q s : Q s (Ok (f s)) -> wp (gets f) Q s.
Proof. exact id. Qed.

Lemma wp_bind (m : M B) (k : B -> M A) Q s :
  wp m (fun s1 r =>
          match r with
          | Ok b => wp (k b) Q s1
          | Throw e => Q s1 (Throw e)
          end) s ->
  wp (bind m k) Q s.
Proof.
  unfold wp, bind. destruct (m s) as [s1 [b|e]]; cbn; exact id.
Qed.

Lemma wp_mono (m : M A) (Q Q' : State -> result A -> Prop) s :
  (forall s1 r, Q s1 r -> Q' s1 r) -> wp m Q s -> wp m Q' s.
Proof. unfold wp. auto. Qed.

End Rules.

Section UnitRules.

Implicit Types (Q : State -> result unit -> Prop) (s : State).

Lemma wp_modify f Q s : Q (f s) (Ok tt) -> wp (modify f) Q s.
Proof. exact id. Qed.

Lemma wp_emit e Q s :
  Q (set_trace (trace s ++ [e]) s) (Ok tt) -> wp (emit e) Q s.
Proof. exact id. Qed.

Lemma wp_when (b : bool) m Q s :
  (if b then wp m Q s else Q s (Ok tt)) -> wp (when b m) Q s.
Proof. destruct b; exact id. Qed.

Lemma wp_try_catch m h Q s :
  wp m (fun s1 r =>
          match r with
          | Ok a => Q s1 (Ok a)
          | Throw e => wp (h e) Q s1
          end) s ->
  wp (try_catch m h) Q s.
Proof.
  unfold wp, try_catch. destruct (m s) as [s1 [a|e]]; cbn; exact id.
Qed.

Lemma wp_send message Q s :
  Q (set_trace (trace s ++ [send_event message s]) s) (Ok tt) ->
  wp (sendWebSocketMessage message) Q s.
Proof.
  unfold wp, sendWebSocketMessage, send_event, bind, gets, emit, modify.
  cbn. destruct (ws_open s); exact id.
Qed.

End UnitRules.

(** Projections of a state built by the setters. *)
Ltac st_simpl :=
  cbn [settings ws pc localStream remoteStream isCallActive
       isLocalVideoEnabled isLocalAudioEnabled sockets pcs streams trace
       set_ws set_pc set_localStream set_remoteStream set_isCallActive
       set_isLocalVideoEnabled set_isLocalAudioEnabled set_sockets set_pcs
       set_streams set_trace is_null negb fst snd] in *.

(** Branch on [x], or take the branch the context already fixes. *)
Ltac case_known x :=
  first [ match goal with H : x = _ |- _ => rewrite H end
        | destruct x eqn:? ];
  repeat match goal with u : unit |- _ => destruct u end.

(** The state variable a setter expression was built from. *)
Ltac root_of s :=
  lazymatch s with
  | set_ws _ ?x => root_of x
  | set_pc _ ?x => root_of x
  | set_localStream _ ?x => root_of x
  | set_remoteStream _ ?x => root_of x
  | set_isCallActive _ ?x => root_of x
  | set_isLocalVideoEnabled _ ?x => root_of x
  | set_isLocalAudioEnabled _ ?x => root_of x
  | set_sockets _ ?x => root_of x
  | set_pcs _ ?x => root_of x
  | set_streams _ ?x => root_of x
  | set_trace _ ?x => root_of x
  | _ => s
  end.

(** The socket test reads [ws] and [sockets] only. *)
Ltac norm_ws_open :=
  repeat match goal with
         | |- context [ws_open ?s'] =>
             let r := root_of s' in
             progress change (ws_open s') with (ws_open r)
         end.

(** One statement of a handler. *)
Ltac wp_step :=
  lazymatch goal with
  | |- wp (bind _ _) _ _ => apply wp_bind
  | |- wp (try_catch _ _) _ _ => apply wp_try_catch
  | |- wp (ret _) _ _ => apply wp_ret
  | |- wp (throw _) _ _ => apply wp_throw
  | |- wp (await _) _ _ => apply wp_await
  | |- wp (gets ws_open) _ _ => apply wp_gets; norm_ws_open
  | |- wp (gets _) _ _ => apply wp_gets
  | |- wp (modify _) _ _ => apply wp_modify
  | |- wp (emit _) _ _ => apply wp_emit
  | |- wp (when _ _) _ _ => apply wp_when
  | |- wp (sendWebSocketMessage _) _ _ =>
      apply wp_send; unfold send_event; norm_ws_open;
      lazymatch goal with
      | |- context [match ws_open ?r with _ => _ end] => case_known (ws_open r)
      end
  | |- wp (construct _ _) _ _ => unfold construct
  | |- wp (this_pc _) _ _ => unfold this_pc
  | |- wp (update_pc _ _) _ _ => unfold update_pc
  | |- wp createPeerConnection _ _ => unfold createPeerConnection
  | |- wp (add_local_tracks _) _ _ => unfold add_local_tracks
  | |- wp (acquire_local_stream _) _ _ => unfold acquire_local_stream
  | |- wp (match ?x with _ => _ end) _ _ => case_known x
  | |- (if negb (is_null ?o) then _ else _) => case_known o
  | |- (if is_null ?o then _ else _) => case_known o
  | |- match ?x with _ => _ end => case_known x
  | |- context [match ?x with _ => _ end ++ _] => case_known x
  end; st_simpl.

(** A handle just allocated points to the object just stored. *)
Ltac store_simpl :=
  repeat match goal with
         | |- context [@lookup _ _ _ _ (length ?l) (?l ++ [?x])] =>
             rewrite (lookup_snoc l x)
         | |- context [@alter _ _ _ _ ?f (length ?l) (?l ++ [?x])] =>
             rewrite (alter_snoc f l x)
         end;
  cbn [from_option id].

Ltac wp_run := repeat (wp_step; store_simpl).

(** Unfold a handler down to matches on the state. *)
Ltac unfold_js :=
  unfold exec, try_catch, bind, gets, modify, emit, when, ret, throw, await,
    construct, this_pc, update_pc in *.

(** Read the observable parts of a trace that grew by known events. *)
Ltac trace_simpl :=
  st_simpl; autorewrite with trace_db;
  unfold sent, state_changes, errors, call_ended_count; cbn.

(** Close the leaves of a run: every conjunct holds by computation or by
    the equations the case analysis left in the context. *)
Ltac wp_done :=
  trace_simpl; repeat split; first [reflexivity | congruence | lia].

Section Toggles.

Lemma first_of_kind_lookup k ts i :
  first_of_kind k ts = Some i ->
  exists t, ts !! i = Some t /\ kind t = k /\
            forall j t', j < i -> ts !! j = Some t' -> kind t' <> k.
Proof.
  revert i. induction ts as [|t ts IH]; intros i; cbn; [discriminate|].
  destruct (kind_eqb (kind t) k) eqn:E.
  - intros [= <-]. exists t. repeat split; [|intros; lia].
    destruct (kind t), k; cbn in E; congruence.
  - destruct (first_of_kind k ts) as [i'|]; cbn; [|discriminate].
    intros [= <-]. destruct (IH i' eq_refl) as (t0 & H0 & Hk & Hlt).
    exists t0. repeat split; auto.
    intros [|j] t' Hj; cbn.
    + intros [= <-]. destruct (kind t), k; cbn in E; congruence.
    + apply Hlt. lia.
Qed.

End Toggles.

Lemma alter_set_enabled (b : bool) (i : nat) (tracks : list Track) (t : Track) :
  tracks !! i = Some t ->
  exists t',
    alter (set_enabled b) i tracks !! i = Some t' /\
    enabled t' = b /\ kind t' = kind t /\ readyState t' = readyState t.
Proof.
  intros Ht. exists (set_enabled b t).
  rewrite list_lookup_alter_eq, Ht. repeat split.
Qed.

(** C9.  [toggleVideo()] and [toggleAudio()], when a local stream with a
    track of that kind is held, negate the corresponding flag, write the new
    flag to the first track of that kind, and return the new flag: that
    track has [enabled] equal to the new flag and is otherwise as it was,
    and no other track of the stream, and no other stream, changes.  When
    no local stream is held they return [false] and leave the state, trace
    included, as it was, so no error is reported.  (A held stream with no
    track of the kind, which [getUserMedia({video: true, audio: true})]
    does not return, is treated like no stream.) *)
Theorem toggle_flips_applies_returns :
  forall s : State,
    (forall h tracks i,
        localStream s = Some h -> streams s !! h = Some tracks ->
        first_of_kind Video tracks = Some i ->
        let new := negb (isLocalVideoEnabled s) in
        let s' := fst (toggleVideo s) in
        snd (toggleVideo s) = Ok new /\
        isLocalVideoEnabled s' = new /\
        isLocalAudioEnabled s' = isLocalAudioEnabled s /\
        localStream s' = Some h /\
        (exists ts' t t',
           streams s' !! h = Some ts' /\ length ts' = length tracks /\
           tracks !! i = Some t /\ kind t = Video /\
           ts' !! i = Some t' /\
           enabled t' = new /\ kind t' = Video /\ readyState t' = readyState t /\
           forall j, j <> i -> ts' !! j = tracks !! j) /\
        (forall h', h' <> h -> streams s' !! h' = streams s !! h') /\
        trace s' = trace s) /\
    (forall h tracks i,
        localStream s = Some h -> streams s !! h = Some tracks ->
        first_of_kind Audio tracks = Some i ->
        let new := negb (isLocalAudioEnabled s) in
        let s' := fst (toggleAudio s) in
        snd (toggleAudio s) = Ok new /\
        isLocalAudioEnabled s' = new /\
        isLocalVideoEnabled s' = isLocalVideoEnabled s /\
        localStream s' = Some h /\
        (exists ts' t t',
           streams s' !! h = Some ts' /\ length ts' = length tracks /\
           tracks !! i = Some t /\ kind t = Audio /\
           ts' !! i = Some t' /\
           enabled t' = new /\ kind t' = Audio /\ readyState t' = readyState t /\
           forall j, j <> i -> ts' !! j = tracks !! j) /\
        (forall h', h' <> h -> streams s' !! h' = streams s !! h') /\
        trace s' = trace s) /\
    (localStream s = None ->
        toggleVideo s = (s, Ok false) /\ toggleAudio s = (s, Ok false)) /\
    (forall h tracks,
        localStream s = Some h -> streams s !! h = Some tracks ->
        (first_of_kind Video tracks = None -> toggleVideo s = (s, Ok false)) /\
        (first_of_kind Audio tracks = None -> toggleAudio s = (s, Ok false))).
Proof.
  intros s. split; [|split; [|split]].
  - intros h tracks i Hls Hst Hi new s'. subst new s'.
    unfold toggleVideo. unfold_js. rewrite Hls. cbn. rewrite Hst. cbn.
    rewrite Hi. cbn.
    destruct (first_of_kind_lookup _ _ _ Hi) as (t & Ht & Hk & _).
    destruct (alter_set_enabled (negb (isLocalVideoEnabled s)) i tracks t Ht)
      as (t' & Ht' & He & Hk' & Hr).
    repeat split; auto.
    + exists (alter (set_enabled (negb (isLocalVideoEnabled s))) i tracks), t, t'.
      rewrite list_lookup_alter_eq, Hst, length_alter.
      repeat split; auto; try congruence.
      intros j Hj. now apply list_lookup_alter_ne.
    + intros h' Hh. now apply list_lookup_alter_ne.
  - intros h tracks i Hls Hst Hi new s'. subst new s'.
    unfold toggleAudio. unfold_js. rewrite Hls. cbn. rewrite Hst. cbn.
    rewrite Hi. cbn.
    destruct (first_of_kind_lookup _ _ _ Hi) as (t & Ht & Hk & _).
    destruct (alter_set_enabled (negb (isLocalAudioEnabled s)) i tracks t Ht)
      as (t' & Ht' & He & Hk' & Hr).
    repeat split; auto.
    + exists (alter (set_enabled (negb (isLocalAudioEnabled s))) i tracks), t, t'.
      rewrite list_lookup_alter_eq, Hst, length_alter.
      repeat split; auto; try congruence.
      intros j Hj. now apply list_lookup_alter_ne.
    + intros h' Hh. now apply list_lookup_alter_ne.
  - intros Hls. unfold toggleVideo, toggleAudio. unfold_js.
    rewrite Hls. now cbn.
  - intros h tracks Hls Hst. unfold toggleVideo, toggleAudio. unfold_js.
    rewrite Hls. cbn. rewrite Hst. cbn. split; intros ->; reflexivity.
Qed.

Lemma toggle_flips_applies_returns_witness :
  let s1 := fst (toggleVideo ex_calling) in
  let s2 := fst (toggleVideo s1) in
  localStream ex_calling = Some 0 /\
  streams ex_calling !! 0 = Some ex_tracks /\
  first_of_kind Video ex_tracks = Some 1 /\
  (snd (toggleVideo ex_calling) = Ok false /\
   isLocalVideoEnabled s1 = false /\
   exists ts' t', streams s1 !! 0 = Some ts' /\ ts' !! 1 = Some t' /\
                  enabled t' = false) /\
  (snd (toggleVideo s1) = Ok true /\
   isLocalVideoEnabled s2 = true /\
   exists ts' t', streams s2 !! 0 = Some ts' /\ ts' !! 1 = Some t' /\
                  enabled t' = true).
Proof.
  intros s1 s2.
  do 3 (split; [vm_compute; reflexivity|]).
  split.
  - destruct (toggle_flips_applies_returns ex_calling) as (Hv & _).
    destruct (Hv 0 ex_tracks 1 ltac:(vm_compute; reflexivity)
                ltac:(vm_compute; reflexivity) ltac:(vm_compute; reflexivity))
      as (Hr & Hf & _ & _ & (ts' & t & t' & Hst & _ & _ & _ & Ht' & He & _) & _).
    split; [exact Hr|]. split; [exact Hf|].
    exists ts', t'. repeat split; assumption.
  - destruct (toggle_flips_applies_returns s1) as (Hv & _).
    destruct (Hv 0 [mkTrack Audio true Live; mkTrack Video false Live] 1
                ltac:(vm_compute; reflexivity)
                ltac:(vm_compute; reflexivity) ltac:(vm_compute; reflexivity))
      as (Hr & Hf & _ & _ & (ts' & t & t' & Hst & _ & _ & _ & Ht' & He & _) & _).
    split; [exact Hr|]. split; [exact Hf|].
    exists ts', t'. repeat split; assumption.
Defined.

(** ** endCall *)

Section EndCall.

Variable env : Env.

(** One run of [endCall]: its body never throws (the [catch] branch, and
    with it the "Failed to end call" report, is never taken), the three
    handles are null afterwards, the objects they pointed to are closed or
    stopped, and the outside sees one [onCallEnded] and, if the socket was
    open, one call-ended frame. *)
Lemma endCall_spec s :
  wp (endCall env)
    (fun s' r =>
       r = Ok tt /\
       (pc s' = None /\ localStream s' = None /\ ws s' = None /\
        isCallActive s' = false /\ settings s' = settings s /\
        remoteStream s' = remoteStream s /\
        isLocalVideoEnabled s' = isLocalVideoEnabled s /\
        isLocalAudioEnabled s' = isLocalAudioEnabled s) /\
       (pcs s' = match pc s with
                 | Some p => alter closed_pc p (pcs s)
                 | None => pcs s
                 end /\
        streams s' = match localStream s with
                     | Some h => alter (map stop) h (streams s)
                     | None => streams s
                     end /\
        sockets s' = match ws s with
                     | Some w => alter closing w (sockets s)
                     | None => sockets s
                     end) /\
       (sent (trace s') =
          sent (trace s) ++
          match ws_open s with
          | Some _ => [call_ended_message (sessionId (settings s))]
          | None => []
          end /\
        call_ended_count (trace s') = call_ended_count (trace s) + 1 /\
        errors (trace s') = errors (trace s) /\
        state_changes (trace s') = state_changes (trace s))) s.
Proof.
  unfold endCall. wp_run; wp_done.
Qed.

Lemma endCall_returns s : snd (endCall env s) = Ok tt.
Proof. apply (endCall_spec s). Qed.

Lemma endCall_handles s :
  let s' := exec (endCall env) s in
  pc s' = None /\ localStream s' = None /\ ws s' = None /\
  isCallActive s' = false /\ settings s' = settings s /\
  remoteStream s' = remoteStream s /\
  isLocalVideoEnabled s' = isLocalVideoEnabled s /\
  isLocalAudioEnabled s' = isLocalAudioEnabled s.
Proof. apply (endCall_spec s). Qed.

(** What [endCall] does to the browser objects. *)
Lemma endCall_objects s :
  let s' := exec (endCall env) s in
  pcs s' = match pc s with
           | Some p => alter closed_pc p (pcs s)
           | None => pcs s
           end /\
  streams s' = match localStream s with
               | Some h => alter (map stop) h (streams s)
               | None => streams s
               end /\
  sockets s' = match ws s with
               | Some w => alter closing w (sockets s)
               | None => sockets s
               end.
Proof. apply (endCall_spec s). Qed.

(** What [endCall] lets the outside see. *)
Lemma endCall_trace s :
  let t' := trace (exec (endCall env) s) in
  sent t' = sent (trace s) ++
            match ws_open s with
            | Some _ => [call_ended_message (sessionId (settings s))]
            | None => []
            end /\
  call_ended_count t' = call_ended_count (trace s) + 1 /\
  errors t' = errors (trace s) /\
  state_changes t' = state_changes (trace s).
Proof. apply (endCall_spec s). Qed.

End EndCall.

Lemma stop_all_ended (ts : list Track) :
  Forall (fun t => readyState t = Ended) (map stop ts).
Proof. induction ts; cbn; constructor; auto. Qed.

(** ** Suspended handlers *)

Section Tasks.

Context {A : Type}.

Lemma Task_induction (Q : Task A -> Prop) :
  (forall r, Q (Done r)) ->
  (forall k, (forall s, Q (snd (k s))) -> Q (Suspended k)) ->
  forall t, Q t.
Proof.
  intros HD HS. fix IH 1. intros [r|k]; [apply HD|].
  apply HS. intros s. apply IH.
Qed.

Lemma atomic_lift (m : M A) s : atomic (Async.lift m) s = m s.
Proof. unfold atomic, Async.lift. now destruct (m s). Qed.

Lemma atomic_ret (a : A) s : atomic (Async.ret a) s = ret a s.
Proof. reflexivity. Qed.

Lemma atomic_await (r : result A) s : atomic (Async.await r) s = await r s.
Proof. reflexivity. Qed.

Lemma finish_bind_task {B} (t : Task A) (k : A -> P B) s :
  atomic (bind_task t k) s =
    match finish t s with
    | (s', Ok a) => atomic (k a) s'
    | (s', Throw e) => (s', Throw e)
    end.
Proof.
  revert s. induction t as [[a|e]|c IH] using Task_induction; intros s.
  - reflexivity.
  - reflexivity.
  - unfold atomic. cbn. specialize (IH s). unfold atomic in IH.
    destruct (c s) as [s2 t']. cbn in IH. apply IH.
Qed.

Lemma atomic_bind {B} (p : P A) (k : A -> P B) s :
  atomic (Async.bind p k) s = bind (atomic p) (fun a => atomic (k a)) s.
Proof.
  pose proof (finish_bind_task (snd (p s)) k (fst (p s))) as H.
  unfold Async.bind, bind, atomic in *. destruct (p s) as [s' t]. exact H.
Qed.

End Tasks.

Lemma finish_catch_task (t : Task unit) (h : JsError -> P unit) s :
  atomic (catch_task t h) s =
    match finish t s with
    | (s', Ok a) => (s', Ok a)
    | (s', Throw e) => atomic (h e) s'
    end.
Proof.
  revert s. induction t as [[a|e]|c IH] using Task_induction; intros s.
  - reflexivity.
  - reflexivity.
  - unfold atomic. cbn. specialize (IH s). unfold atomic in IH.
    destruct (c s) as [s2 t']. cbn in IH. apply IH.
Qed.

Lemma atomic_try_catch (p : P unit) (h : JsError -> P unit) s :
  atomic (Async.try_catch p h) s =
    try_catch (atomic p) (fun e => atomic (h e)) s.
Proof.
  pose proof (finish_catch_task (snd (p s)) h (fst (p s))) as H.
  unfold Async.try_catch, try_catch, atomic in *. destruct (p s) as [s' t].
  exact H.
Qed.

Section Agreement.

Context {A : Type}.

Lemma agrees_lift (m : M A) : agrees (Async.lift m) m.
Proof. intros s. apply atomic_lift. Qed.

Lemma agrees_ret (a : A) : agrees (Async.ret a) (ret a).
Proof. intros s. reflexivity. Qed.

Lemma agrees_await (r : result A) : agrees (Async.await r) (await r).
Proof. intros s. reflexivity. Qed.

Lemma agrees_bind {B} (p : P B) (m : M B) (k : B -> P A) (k' : B -> M A) :
  agrees p m -> (forall b, agrees (k b) (k' b)) ->
  agrees (Async.bind p k) (bind m k').
Proof.
  intros Hp Hk s. rewrite atomic_bind. unfold bind. rewrite (Hp s).
  destruct (m s) as [s' [b|e]]; [apply Hk | reflexivity].
Qed.

End Agreement.

Lemma agrees_try_catch (p : P unit) (m : M unit) (h : JsError -> P unit)
    (h' : JsError -> M unit) :
  agrees p m -> (forall e, agrees (h e) (h' e)) ->
  agrees (Async.try_catch p h) (try_catch m h').
Proof.
  intros Hp Hh s. rewrite atomic_try_catch. unfold try_catch. rewrite (Hp s).
  destruct (m s) as [s' [b|e]]; [reflexivity | apply Hh].
Qed.

Lemma agrees_when (b : bool) (p : P unit) (m : M unit) :
  agrees p m -> agrees (Async.when b p) (when b m).
Proof. destruct b; [exact id | intros _ s; reflexivity]. Qed.

(** Compare a handler statement by statement with its atomic reading. *)
Ltac agree :=
  cbv zeta;
  repeat first
    [ apply agrees_lift
    | apply agrees_ret
    | apply agrees_await
    | apply agrees_try_catch; [|intros ?]
    | apply agrees_bind; [|intros ?]
    | apply agrees_when
    | match goal with
      | |- agrees (match ?x with _ => _ end) _ => destruct x
      end ].

Lemma acquire_local_stream_agrees env :
  agrees (Async.acquire_local_stream env) (acquire_local_stream env).
Proof. unfold Async.acquire_local_stream, acquire_local_stream. agree. Qed.

Lemma startCall_agrees env : agrees (Async.startCall env) (startCall env).
Proof.
  unfold Async.startCall, startCall.
  pose proof (acquire_local_stream_agrees env). agree; assumption.
Qed.

Lemma handleOffer_agrees env sdp :
  agrees (Async.handleOffer env sdp) (handleOffer env sdp).
Proof.
  unfold Async.handleOffer, handleOffer.
  pose proof (acquire_local_stream_agrees env). agree; assumption.
Qed.

Lemma handleAnswer_agrees env sdp :
  agrees (Async.handleAnswer env sdp) (handleAnswer env sdp).
Proof. unfold Async.handleAnswer, handleAnswer. agree. Qed.

Lemma handleIceCandidate_agrees env c :
  agrees (Async.handleIceCandidate env c) (handleIceCandidate env c).
Proof. unfold Async.handleIceCandidate, handleIceCandidate. agree. Qed.

Lemma endCall_agrees env : agrees (Async.endCall env) (endCall env).
Proof. unfold Async.endCall, endCall. agree. Qed.

Lemma handleSignalingMessage_agrees env message :
  agrees (Async.handleSignalingMessage env message)
    (handleSignalingMessage env message).
Proof.
  unfold Async.handleSignalingMessage, handleSignalingMessage.
  apply agrees_bind; [apply agrees_lift|intros _].
  repeat match goal with
         | |- agrees (if ?b then _ else _) _ => destruct b
         end.
  - apply handleOffer_agrees.
  - apply handleAnswer_agrees.
  - apply handleIceCandidate_agrees.
  - apply endCall_agrees.
  - apply agrees_lift.
Qed.

(** Every input: the handler it starts, resumed at once whenever it
    suspends, does what [step] does. *)
Lemma start_agrees i s : fst (atomic (start i) s) = step i s.
Proof.
  destruct i; cbn [start step]; unfold exec, destroy, Async.destroy,
    ws_onmessage; rewrite ?atomic_lift; try reflexivity.
  - now rewrite startCall_agrees.
  - unfold bind. now destruct (toggleVideo s) as [s' [b|e]].
  - unfold bind. now destruct (toggleAudio s) as [s' [b|e]].
  - now rewrite endCall_agrees.
  - now rewrite endCall_agrees.
  - now rewrite handleSignalingMessage_agrees.
Qed.

(** ** Rules for running a handler up to its next await *)

Section AsyncRules.

Context {A B : Type}.
Implicit Types (Q : State -> Task A -> Prop) (s : State).








End AsyncRules.

Section AsyncUnitRules.

Implicit Types (Q : State -> Task unit -> Prop) (s : State).






End AsyncUnitRules.



(** ** endCall among suspended handlers *)


Section Schedules.



End Schedules.




(** C2, as the code has it.  After any sequence of inputs, two [endCall()]
    in a row both complete without throwing and report no error; each of
    them invokes [onCallEnded] once, so the two together invoke it twice.
    The second call finds every handle null: it sends nothing, touches no
    browser object and leaves the handles null and the call inactive. *)
Theorem endCall_twice :
  forall (inputs : list Input) (config : Config) (onLocal : bool) (e1 e2 : Env),
    let s := run inputs (constructor config onLocal) in
    let s1 := exec (endCall e1) s in
    let s2 := exec (endCall e2) s1 in
    snd (endCall e1 s) = Ok tt /\ snd (endCall e2 s1) = Ok tt /\
    errors (trace s2) = errors (trace s) /\
    call_ended_count (trace s1) = call_ended_count (trace s) + 1 /\
    call_ended_count (trace s2) = call_ended_count (trace s) + 2 /\
    sent (trace s2) = sent (trace s1) /\
    pcs s2 = pcs s1 /\ streams s2 = streams s1 /\ sockets s2 = sockets s1 /\
    pc s2 = None /\ localStream s2 = None /\ ws s2 = None /\
    isCallActive s2 = false.
Proof.
  intros inputs config onLocal e1 e2 s s1 s2.
  destruct (endCall_handles e1 s) as (Hpc & Hls & Hws & _).
  destruct (endCall_trace e1 s) as (_ & Hn1 & He1 & _).
  destruct (endCall_handles e2 s1) as (Hpc2 & Hls2 & Hws2 & Hact2 & _).
  destruct (endCall_objects e2 s1) as (Hp & Hst & Hso).
  destruct (endCall_trace e2 s1) as (Hsent & Hn2 & He2 & _).
  fold s1 in Hpc, Hls, Hws, He1, Hn1.
  fold s2 in Hpc2, Hls2, Hws2, Hact2, Hp, Hst, Hso, Hsent, Hn2, He2.
  rewrite Hpc in Hp. rewrite Hls in Hst. rewrite Hws in Hso.
  unfold ws_open in Hsent. rewrite Hws in Hsent. rewrite app_nil_r in Hsent.
  repeat split; auto using endCall_returns; try congruence; lia.
Qed.

(** C2 as stated fails: on a page that is in a call, two [endCall()] in a
    row invoke [onCallEnded] twice, not once. *)
Lemma endCall_twice_invokes_twice :
  call_ended_count (trace ex_calling) = 0 /\
  call_ended_count
    (trace (run [CallEndCall ex_env; CallEndCall ex_env] ex_calling)) = 2 /\
  call_ended_count
    (trace (run [CallEndCall ex_env; CallEndCall ex_env] ex_calling)) <> 1.
Proof. vm_compute. repeat split; congruence. Qed.

(** ** handleSignalingMessage *)

Lemma dispatch_call_ended env message s :
  msg_type message = "call-ended" ->
  handleSignalingMessage env message s =
    endCall env
      (set_trace (trace s ++ [ConsoleLog ["Received signaling message:"; "call-ended"]]) s).
Proof.
  intros H. unfold handleSignalingMessage. rewrite H. reflexivity.
Qed.

Lemma stop_lookup (ts : list Track) (i : nat) (t : Track) :
  ts !! i = Some t ->
  exists t', map stop ts !! i = Some t' /\
             readyState t' = Ended /\ kind t' = kind t /\ enabled t' = enabled t.
Proof.
  revert i. induction ts as [|u ts IH]; intros [|i] H; try discriminate.
  - injection H as ->. exists (stop t). repeat split.
  - exact (IH i H).
Qed.

(** C3, as the code has it.  A received call-ended frame runs [endCall()]:
    the peer connection is closed ([pc_closed], state ["closed"], nothing
    else about it changed) and [pc] set to null, every track of the local
    stream is stopped ([readyState] ended, kind and [enabled] unchanged) and
    [localStream] set to null, [onCallEnded] is invoked exactly once and no
    error is reported; and, the socket being open, one call-ended frame
    carrying the instance's session id is sent back (none only when the
    socket is not open). *)
Theorem call_ended_received :
  forall (env : Env) (message : Message) (s : State),
    msg_type message = "call-ended" ->
    let s' := exec (handleSignalingMessage env message) s in
    pc s' = None /\ localStream s' = None /\
    (forall p c,
       pc s = Some p -> pcs s !! p = Some c ->
       exists c',
         pcs s' !! p = Some c' /\
         pc_closed c' = true /\ pc_connectionState c' = "closed" /\
         pc_localDescription c' = pc_localDescription c /\
         pc_remoteDescription c' = pc_remoteDescription c /\
         pc_senders c' = pc_senders c /\
         pc_candidates c' = pc_candidates c) /\
    (forall h tracks,
       localStream s = Some h -> streams s !! h = Some tracks ->
       exists ts',
         streams s' !! h = Some ts' /\
         length ts' = length tracks /\
         Forall (fun t => readyState t = Ended) ts' /\
         forall i t, tracks !! i = Some t ->
           exists t', ts' !! i = Some t' /\ readyState t' = Ended /\
                      kind t' = kind t /\ enabled t' = enabled t) /\
    call_ended_count (trace s') = call_ended_count (trace s) + 1 /\
    errors (trace s') = errors (trace s) /\
    sent (trace s') =
      sent (trace s) ++
      match ws_open s with
      | Some _ =>
          [mkMessage "call-ended" (sessionId (settings s)) None None None None]
      | None => []
      end.
Proof.
  intros env message s Hty s'. subst s'. unfold exec.
  rewrite (dispatch_call_ended _ _ _ Hty).
  set (s1 := set_trace _ s).
  destruct (endCall_handles env s1) as (Hpc & Hls & _).
  destruct (endCall_objects env s1) as (Hp & Hst & _).
  destruct (endCall_trace env s1) as (Hsent & Hn & He & _).
  unfold exec in *. set (s' := fst (endCall env s1)) in *.
  change (pc s1) with (pc s) in Hp. change (pcs s1) with (pcs s) in Hp.
  change (localStream s1) with (localStream s) in Hst.
  change (streams s1) with (streams s) in Hst.
  change (ws_open s1) with (ws_open s) in Hsent.
  change (settings s1) with (settings s) in Hsent.
  subst s1. st_simpl.
  rewrite sent_log in Hsent. rewrite call_ended_count_log in Hn.
  rewrite errors_log in He.
  repeat split; auto.
  - intros p c Hq Hc. rewrite Hq in Hp. exists (closed_pc c).
    rewrite Hp, list_lookup_alter_eq, Hc. repeat split.
  - intros h tracks Hh Ht. rewrite Hh in Hst. exists (map stop tracks).
    rewrite Hst, list_lookup_alter_eq, Ht, length_map.
    repeat split; [apply stop_all_ended|]. intros i t. apply stop_lookup.
Qed.

Lemma call_ended_received_witness :
  let s' := exec (handleSignalingMessage ex_env (call_ended_message (Some "S1")))
              ex_calling in
  msg_type (call_ended_message (Some "S1")) = "call-ended" /\
  (pc ex_calling = Some 0 /\ (pc_closed <$> pcs ex_calling !! 0) = Some false) /\
  (localStream ex_calling = Some 0 /\ streams ex_calling !! 0 = Some ex_tracks) /\
  (exists c', pcs s' !! 0 = Some c' /\ pc_closed c' = true) /\
  (exists ts', streams s' !! 0 = Some ts' /\
               Forall (fun t => readyState t = Ended) ts' /\ length ts' = 2) /\
  sent (trace s') = sent (trace ex_calling) ++ [call_ended_message (Some "S1")].
Proof.
  intros s'.
  do 3 (split; [vm_compute; repeat split; reflexivity|]).
  destruct (call_ended_received ex_env (call_ended_message (Some "S1"))
              ex_calling eq_refl) as (_ & _ & Hp & Hs & _ & _ & Hsent).
  destruct (Hp 0 (mkPeerConnection (Some (mkDesc SdpOffer "v=0 local")) None
                    [(0, 0); (0, 1)] [] "new" false)
              ltac:(vm_compute; reflexivity) ltac:(vm_compute; reflexivity))
    as (c' & Hc' & Hcl & _).
  destruct (Hs 0 ex_tracks ltac:(vm_compute; reflexivity)
              ltac:(vm_compute; reflexivity)) as (ts' & Hts & Hlen & Hall & _).
  split; [exists c'; split; assumption|].
  split; [exists ts'; repeat split; assumption|].
  exact Hsent.
Defined.

(** C3 as stated fails: the page is negotiating, a call-ended frame for its
    session arrives, and a call-ended frame goes out in response. *)
Lemma call_ended_is_answered :
  let s' := step (SocketMessage ex_env (call_ended_message (Some "S1"))) ex_calling in
  ws_open ex_calling = Some 0 /\
  sent (trace s') = sent (trace ex_calling) ++ [call_ended_message (Some "S1")] /\
  last (trace s') = Some (Fetch "https://api.example/sessions/S1/end") /\
  In (WsSend 0 (call_ended_message (Some "S1"))) (trace s').
Proof. vm_compute. repeat split; auto 10. Qed.

(** ** startCall *)

Section StartCall.

Variable env : Env.

(** A run of [startCall] in which no awaited call throws. *)
Lemma startCall_ok_spec s tracks sdp :
  getUserMedia env = Ok tracks ->
  createOffer env = Ok sdp ->
  setLocalDescription env = Ok tt ->
  let offer := mkDesc SdpOffer sdp in
  let h := length (streams s) in
  wp (startCall env)
    (fun s' r =>
       r = Ok tt /\
       (settings s' = settings s /\ ws s' = ws s /\ sockets s' = sockets s /\
        remoteStream s' = remoteStream s /\
        isLocalVideoEnabled s' = isLocalVideoEnabled s /\
        isLocalAudioEnabled s' = isLocalAudioEnabled s) /\
       (localStream s' = Some h /\
        streams s' = streams s ++ [tracks] /\
        pc s' = Some (length (pcs s)) /\
        pcs s' = pcs s ++
                 [mkPeerConnection (Some offer) None (all_tracks_of h tracks)
                    [] "new" false] /\
        isCallActive s' = true) /\
       (sent (trace s') =
          sent (trace s) ++
          match ws_open s with
          | Some _ => [offer_message (sessionId (settings s)) offer]
          | None => []
          end /\
        state_changes (trace s') = state_changes (trace s) ++ ["connecting"] /\
        errors (trace s') = errors (trace s) /\
        call_ended_count (trace s') = call_ended_count (trace s))) s.
Proof.
  intros Hg Ho Hl offer h. subst offer h.
  unfold startCall. wp_run; wp_done.
Qed.

(** A run of [startCall] in which an awaited call throws [e]. *)
Lemma startCall_fail_spec s e :
  startCall_throws env e ->
  wp (startCall env)
    (fun s' r =>
       r = Ok tt /\
       (settings s' = settings s /\ ws s' = ws s /\ sockets s' = sockets s /\
        isCallActive s' = isCallActive s) /\
       (sent (trace s') = sent (trace s) /\
        state_changes (trace s') = state_changes (trace s) /\
        errors (trace s') =
          errors (trace s) ++ ["Failed to start call: " +:+ message e] /\
        call_ended_count (trace s') = call_ended_count (trace s))) s.
Proof.
  intros [Hg | tracks Hg Ho | tracks sdp Hg Ho Hl];
    unfold startCall; wp_run; wp_done.
Qed.

End StartCall.

(** C5, as the code has it.  When no awaited call of [startCall()] throws,
    it stores a new local stream (the capture), creates a new peer
    connection whose senders are exactly the tracks of that stream and
    whose local description is the offer, sets [isCallActive], reports
    ["connecting"] through [onConnectionStateChange] and reports no error;
    the offer frame, carrying the instance's session id, is sent if the
    socket is open, and nothing is sent otherwise. *)
Theorem startCall_success :
  forall (env : Env) (s : State) (tracks : list Track) (sdp : string),
    getUserMedia env = Ok tracks ->
    createOffer env = Ok sdp ->
    setLocalDescription env = Ok tt ->
    let offer := mkDesc SdpOffer sdp in
    let h := length (streams s) in
    let s' := exec (startCall env) s in
    localStream s' = Some h /\
    streams s' = streams s ++ [tracks] /\
    pc s' = Some (length (pcs s)) /\
    pcs s' = pcs s ++
             [mkPeerConnection (Some offer) None (all_tracks_of h tracks)
                [] "new" false] /\
    isCallActive s' = true /\
    state_changes (trace s') = state_changes (trace s) ++ ["connecting"] /\
    errors (trace s') = errors (trace s) /\
    sent (trace s') =
      sent (trace s) ++
      match ws_open s with
      | Some _ => [offer_message (sessionId (settings s)) offer]
      | None => []
      end.
Proof.
  intros env s tracks sdp Hg Ho Hl offer h s'.
  destruct (startCall_ok_spec env s tracks sdp Hg Ho Hl)
    as (_ & _ & (H1 & H2 & H3 & H4 & H5) & (H6 & H7 & H8 & _)).
  repeat split; assumption.
Qed.

Lemma startCall_success_witness :
  getUserMedia ex_env = Ok ex_tracks /\
  createOffer ex_env = Ok "v=0 local" /\
  setLocalDescription ex_env = Ok tt /\
  sent (trace (exec (startCall ex_env) ex_joined)) =
    sent (trace ex_joined) ++
    [offer_message (Some "S1") (mkDesc SdpOffer "v=0 local")].
Proof.
  do 3 (split; [reflexivity|]).
  apply (startCall_success ex_env ex_joined ex_tracks "v=0 local");
    reflexivity.
Defined.

(** C5 as stated fails: on a page whose socket was never connected,
    [startCall()] succeeds (no error, call active, ["connecting"] reported)
    and sends no offer. *)
Lemma startCall_without_socket_sends_nothing :
  let s' := exec (startCall ex_env) (constructor ex_config false) in
  errors (trace s') = [] /\
  isCallActive s' = true /\
  state_changes (trace s') = ["connecting"] /\
  sent (trace s') = [] /\
  trace s' = [ConsoleError ["WebSocket not connected"];
              OnConnectionStateChange "connecting"].
Proof. vm_compute. repeat split. Qed.

(** C8.  If [startCall()] fails because capture is refused or the offer
    cannot be created (or set as local description), [onError] is invoked
    once with a reason that starts with "Failed to start call: " followed by
    the message of the error, [onConnectionStateChange] is not invoked and
    [isCallActive] keeps its value (false on a page that is not in a call),
    and no frame is sent. *)
Theorem startCall_failure :
  forall (env : Env) (s : State) (e : JsError),
    startCall_throws env e ->
    let s' := exec (startCall env) s in
    let reason := "Failed to start call: " +:+ message e in
    errors (trace s') = errors (trace s) ++ [reason] /\
    String.prefix "Failed to start call: " reason = true /\
    state_changes (trace s') = state_changes (trace s) /\
    isCallActive s' = isCallActive s /\
    sent (trace s') = sent (trace s).
Proof.
  intros env s e H s' reason.
  destruct (startCall_fail_spec env s e H)
    as (_ & (_ & _ & _ & Hact) & (Hsent & Hch & Herr & _)).
  subst reason s'.
  split; [exact Herr|]. split; [apply prefix_append|].
  split; [exact Hch|]. split; [exact Hact | exact Hsent].
Qed.

Lemma startCall_failure_witness :
  startCall_throws ex_env_denied (mkError "Permission denied") /\
  let s' := exec (startCall ex_env_denied) ex_joined in
  errors (trace s') = ["Failed to start call: Permission denied"] /\
  state_changes (trace s') = [] /\
  isCallActive s' = false /\
  sent (trace s') = sent (trace ex_joined).
Proof.
  assert (H : startCall_throws ex_env_denied (mkError "Permission denied"))
    by (apply capture_refused; reflexivity).
  split; [exact H|].
  destruct (startCall_failure ex_env_denied ex_joined _ H)
    as (Herr & _ & Hch & Hact & Hsent).
  repeat split; assumption.
Defined.

(** ** handleOffer, handleAnswer, handleIceCandidate *)

Section Negotiation.

Variable env : Env.

(** Every run of [handleOffer] ends in one of two ways: it got to its last
    statement, or some step threw and the [catch] branch reported it. *)
Lemma handleOffer_outcomes s offerSdp :
  wp (handleOffer env offerSdp)
    (fun s' r =>
       r = Ok tt /\
       call_ended_count (trace s') = call_ended_count (trace s) /\
       (capture_held s -> capture_held s') /\
       (pc s <> None -> pc s' = pc s /\ length (pcs s') = length (pcs s)) /\
       ((state_changes (trace s') = state_changes (trace s) ++ ["connecting"] /\
         isCallActive s' = true /\
         errors (trace s') = errors (trace s))
        \/
        (state_changes (trace s') = state_changes (trace s) /\
         isCallActive s' = isCallActive s /\
         sent (trace s') = sent (trace s) /\
         exists e, errors (trace s') =
                   errors (trace s) ++ ["Failed to handle offer: " +:+ message e]))) s.
Proof.
  unfold handleOffer. wp_run.
  all: split; [reflexivity|].
  all: split; [trace_simpl; reflexivity|].
  all: split; [unfold capture_held; st_simpl; intuition congruence|].
  all: split; [rewrite ?length_alter; intuition congruence|].
  all: first [ left; wp_done
             | right; repeat split;
               [wp_done ..
               | eexists; st_simpl; autorewrite with trace_db; reflexivity] ].
Qed.

(** [handleAnswer]: only the remote description of the current peer
    connection can change; a throw is reported through [onError]. *)
Lemma handleAnswer_spec s answerSdp :
  wp (handleAnswer env answerSdp)
    (fun s' r =>
       r = Ok tt /\
       (settings s' = settings s /\ ws s' = ws s /\ sockets s' = sockets s /\
        localStream s' = localStream s /\ streams s' = streams s /\
        pc s' = pc s /\ isCallActive s' = isCallActive s) /\
       (sent (trace s') = sent (trace s) /\
        state_changes (trace s') = state_changes (trace s) /\
        call_ended_count (trace s') = call_ended_count (trace s))) s.
Proof. unfold handleAnswer. wp_run; wp_done. Qed.

(** [handleIceCandidate]: only the candidate list of the current peer
    connection can change; a throw goes to the console and nowhere else. *)
Lemma handleIceCandidate_spec s candidate :
  wp (handleIceCandidate env candidate)
    (fun s' r =>
       r = Ok tt /\
       (settings s' = settings s /\ ws s' = ws s /\ sockets s' = sockets s /\
        localStream s' = localStream s /\ streams s' = streams s /\
        pc s' = pc s /\ isCallActive s' = isCallActive s) /\
       (sent (trace s') = sent (trace s) /\
        state_changes (trace s') = state_changes (trace s) /\
        errors (trace s') = errors (trace s) /\
        call_ended_count (trace s') = call_ended_count (trace s)) /\
       pcs s' = match pc s, candidate, addIceCandidate env with
                | Some p, Some c, Ok _ => alter (with_candidate c) p (pcs s)
                | _, _, _ => pcs s
                end) s.
Proof. unfold handleIceCandidate. wp_run; wp_done. Qed.

(** With no peer connection, [handleIceCandidate] does nothing at all. *)
Lemma handleIceCandidate_no_pc s candidate :
  pc s = None -> handleIceCandidate env candidate s = (s, Ok tt).
Proof.
  intros H. unfold handleIceCandidate, try_catch, bind, gets. now rewrite H.
Qed.

End Negotiation.

Section Offer.

Variable env : Env.

(** Take the case of [capture_available] that the state allows. *)
Ltac capture_cases s H :=
  destruct (localStream s) eqn:?;
  destruct H as [H | [? H]]; try congruence.

(** A run of [handleOffer] in which no step throws. *)
Lemma handleOffer_ok_spec s offerSdp d sdp :
  handleOffer_passes env s offerSdp d sdp ->
  let answer := mkDesc SdpAnswer sdp in
  wp (handleOffer env offerSdp)
    (fun s' r =>
       r = Ok tt /\
       (settings s' = settings s /\ ws s' = ws s /\ sockets s' = sockets s /\
        isCallActive s' = true) /\
       (sent (trace s') =
          sent (trace s) ++
          match ws_open s with
          | Some _ => [answer_message (sessionId (settings s)) answer]
          | None => []
          end /\
        state_changes (trace s') = state_changes (trace s) ++ ["connecting"] /\
        errors (trace s') = errors (trace s) /\
        call_ended_count (trace s') = call_ended_count (trace s))) s.
Proof.
  intros (Hcap & -> & Hr & Ha & Hl) answer. subst answer.
  capture_cases s Hcap; unfold handleOffer; wp_run; wp_done.
Qed.

(** A run of [handleOffer] in which a step throws [e]. *)
Lemma handleOffer_fail_spec s offerSdp e :
  handleOffer_throws env s offerSdp e ->
  wp (handleOffer env offerSdp)
    (fun s' r =>
       r = Ok tt /\
       (settings s' = settings s /\ ws s' = ws s /\ sockets s' = sockets s /\
        isCallActive s' = isCallActive s) /\
       (sent (trace s') = sent (trace s) /\
        state_changes (trace s') = state_changes (trace s) /\
        errors (trace s') =
          errors (trace s) ++ ["Failed to handle offer: " +:+ message e] /\
        call_ended_count (trace s') = call_ended_count (trace s))) s.
Proof.
  intros [Hls Hg | Hcap -> -> | d Hcap -> Hr | d Hcap -> Hr Ha
          | d sdp Hcap -> Hr Ha Hl].
  1: unfold handleOffer; wp_run; wp_done.
  all: capture_cases s Hcap; unfold handleOffer; wp_run; wp_done.
Qed.

(** Every run of [handleOffer] is of one of the two kinds. *)
Lemma handleOffer_passes_or_throws s offerSdp :
  (exists d sdp, handleOffer_passes env s offerSdp d sdp) \/
  (exists e, handleOffer_throws env s offerSdp e).
Proof.
  assert (Hc : capture_available env s \/
               exists e, localStream s = None /\ getUserMedia env = Throw e).
  { unfold capture_available.
    destruct (localStream s) as [h|]; [left; left; congruence|].
    destruct (getUserMedia env) as [tracks|e]; eauto. }
  destruct Hc as [Hc | (e & Hls & Hg)];
    [|right; exists e; now apply offer_capture_refused].
  destruct offerSdp as [d|];
    [|right; eexists; now apply offer_description_missing].
  destruct (setRemoteDescription env) as [[]|e] eqn:Hr;
    [|right; exists e; now apply (offer_remote_refused _ _ _ _ d)].
  destruct (createAnswer env) as [sdp|e] eqn:Ha;
    [|right; exists e; now apply (offer_answer_refused _ _ _ _ d)].
  destruct (setLocalDescription env) as [[]|e] eqn:Hl;
    [|right; exists e; now apply (offer_local_refused _ _ _ _ d sdp)].
  left. exists d, sdp. repeat split; auto.
Qed.

(** Which step throws depends on the state through [localStream] only. *)
Lemma handleOffer_throws_same s s1 offerSdp e :
  localStream s1 = localStream s ->
  handleOffer_throws env s offerSdp e -> handleOffer_throws env s1 offerSdp e.
Proof.
  intros Hl H.
  assert (Hc : capture_available env s -> capture_available env s1)
    by (unfold capture_available; now rewrite Hl).
  destruct H as [Hls Hg | Hcap Ho He | d Hcap Ho Hr | d Hcap Ho Hr Ha
                 | d sdp Hcap Ho Hr Ha Hs].
  - apply offer_capture_refused; congruence.
  - apply offer_description_missing; auto.
  - apply (offer_remote_refused _ _ _ _ d); auto.
  - apply (offer_answer_refused _ _ _ _ d); auto.
  - apply (offer_local_refused _ _ _ _ d sdp); auto.
Qed.

End Offer.

(** An offer arriving when capture and a peer connection are already held:
    what becomes of the peer connections, whichever step throws. *)
Lemma handleOffer_reuse_pcs env s h p offerSdp :
  localStream s = Some h ->
  pc s = Some p ->
  wp (handleOffer env offerSdp)
    (fun s' _ =>
       pc s' = Some p /\ localStream s' = Some h /\ streams s' = streams s /\
       pcs s' =
         match offerSdp, setRemoteDescription env with
         | Some d, Ok _ =>
             match createAnswer env, setLocalDescription env with
             | Ok sdp, Ok _ =>
                 alter (with_localDescription (mkDesc SdpAnswer sdp)) p
                   (alter (with_remoteDescription d) p (pcs s))
             | _, _ => alter (with_remoteDescription d) p (pcs s)
             end
         | _, _ => pcs s
         end) s.
Proof.
  intros Hls Hpc. unfold handleOffer. wp_run.
  all: repeat split; first [reflexivity | congruence].
Qed.

(** ** States a page can be in *)

Section Reachable.

Lemma startCall_capture env s :
  wp (startCall env) (fun s' _ => capture_held s -> capture_held s') s.
Proof.
  unfold startCall, capture_held. wp_run; intuition congruence.
Qed.

Lemma toggleVideo_capture s :
  wp toggleVideo (fun s' _ => capture_held s -> capture_held s') s.
Proof.
  unfold toggleVideo, capture_held. wp_run; intuition congruence.
Qed.

Lemma toggleAudio_capture s :
  wp toggleAudio (fun s' _ => capture_held s -> capture_held s') s.
Proof.
  unfold toggleAudio, capture_held. wp_run; intuition congruence.
Qed.

Lemma handleSignalingMessage_capture env message s :
  wp (handleSignalingMessage env message)
    (fun s' _ => capture_held s -> capture_held s') s.
Proof.
  unfold handleSignalingMessage.
  apply wp_bind, wp_emit. st_simpl.
  set (s1 := set_trace _ s).
  assert (H1 : capture_held s -> capture_held s1) by exact id.
  repeat lazymatch goal with
         | |- wp (if ?b then _ else _) _ _ => destruct b
         end.
  - eapply wp_mono; [|apply handleOffer_outcomes].
    cbv beta. intros s' r (_ & _ & H & _). auto.
  - eapply wp_mono; [|apply handleAnswer_spec].
    cbv beta. intros s' r (_ & (_ & _ & _ & Hl & _ & Hp & _) & _).
    unfold capture_held in *. rewrite Hl, Hp. auto.
  - eapply wp_mono; [|apply handleIceCandidate_spec].
    cbv beta. intros s' r (_ & (_ & _ & _ & Hl & _ & Hp & _) & _).
    unfold capture_held in *. rewrite Hl, Hp. auto.
  - eapply wp_mono; [|apply endCall_spec].
    cbv beta. intros s' r (_ & (Hp & _) & _).
    unfold capture_held. congruence.
  - apply wp_emit. exact H1.
Qed.

(** A handler that leaves [pc] and [localStream] alone. *)
Lemma capture_frame {A} (m : M A) s s1 :
  wp m (fun s' _ => pc s' = pc s1 /\ localStream s' = localStream s1) s1 ->
  pc s1 = pc s -> localStream s1 = localStream s ->
  capture_held s -> capture_held (fst (m s1)).
Proof.
  unfold wp, capture_held. intros [Hp Hl] Hp1 Hl1.
  rewrite Hp, Hl, Hp1, Hl1. exact id.
Qed.

Lemma step_capture i s : capture_held s -> capture_held (step i s).
Proof.
  pose proof (endCall_handles) as Hend.
  destruct i; cbn [step]; unfold exec, destroy.
  - apply capture_frame; [unfold connectWebSocket; wp_run; auto|..];
      reflexivity.
  - apply startCall_capture.
  - apply toggleVideo_capture.
  - apply toggleAudio_capture.
  - intros _ H. destruct (Hend env s) as (Hp & _). now unfold exec in Hp.
  - intros _ H. destruct (Hend env s) as (Hp & _). now unfold exec in Hp.
  - apply capture_frame; [unfold ws_onopen; wp_run; auto|..]; reflexivity.
  - apply handleSignalingMessage_capture.
  - apply capture_frame; [unfold ws_onerror; wp_run; auto|..]; reflexivity.
  - apply capture_frame; [unfold ws_onclose; wp_run; auto|..]; reflexivity.
  - apply capture_frame; [unfold pc_ontrack; wp_run; auto|..]; reflexivity.
  - apply capture_frame; [unfold pc_onicecandidate; wp_run; auto|..];
      reflexivity.
  - apply capture_frame;
      [unfold pc_onconnectionstatechange; wp_run; auto|..]; reflexivity.
Qed.

(** Along every run, a peer connection is never held without a local
    stream. *)
Lemma run_capture inputs s : capture_held s -> capture_held (run inputs s).
Proof.
  revert s. induction inputs as [|i inputs IH]; intros s H; [exact H|].
  cbn. apply IH, step_capture, H.
Qed.

Lemma constructor_capture config onLocal :
  capture_held (constructor config onLocal).
Proof. intros H. now cbn in H. Qed.

End Reachable.

(** ** Claims about incoming frames *)

Lemma dispatch_offer env message s :
  msg_type message = "offer" ->
  handleSignalingMessage env message s =
    handleOffer env (msg_sdp message)
      (set_trace (trace s ++ [ConsoleLog ["Received signaling message:"; "offer"]]) s).
Proof.
  intros H. unfold handleSignalingMessage. rewrite H. reflexivity.
Qed.

Lemma dispatch_answer env message s :
  msg_type message = "answer" ->
  handleSignalingMessage env message s =
    handleAnswer env (msg_sdp message)
      (set_trace (trace s ++ [ConsoleLog ["Received signaling message:"; "answer"]]) s).
Proof.
  intros H. unfold handleSignalingMessage. rewrite H. reflexivity.
Qed.

Lemma dispatch_ice_candidate env message s :
  msg_type message = "ice-candidate" ->
  handleSignalingMessage env message s =
    handleIceCandidate env (msg_candidate message)
      (set_trace
         (trace s ++ [ConsoleLog ["Received signaling message:"; "ice-candidate"]]) s).
Proof.
  intros H. unfold handleSignalingMessage. rewrite H. reflexivity.
Qed.

(** C1, as the code has it.  [handleIceCandidate] keeps no buffer.  With a
    peer connection, the candidate is handed to [addIceCandidate] at once,
    whether or not a remote description is set: if the call resolves, the
    candidate is added after those already there, and if it rejects, the
    candidate is lost (the error goes to the console only).  With no peer
    connection the state is left exactly as it was, so nothing that happens
    later can depend on the candidate: it is discarded.  No error is
    reported and no frame is sent in any case. *)
Theorem ice_candidate_applied_or_lost :
  forall (env : Env) (candidate : option IceCandidate) (s : State),
    let s' := exec (handleIceCandidate env candidate) s in
    (pc s = None ->
       handleIceCandidate env candidate s = (s, Ok tt) /\
       forall later, run later s' = run later s) /\
    (forall p c x,
       pc s = Some p -> pcs s !! p = Some c -> candidate = Some x ->
       addIceCandidate env = Ok tt ->
       exists c',
         pcs s' !! p = Some c' /\
         pc_candidates c' = pc_candidates c ++ [x] /\
         pc_remoteDescription c' = pc_remoteDescription c /\
         pc_localDescription c' = pc_localDescription c) /\
    (forall e, addIceCandidate env = Throw e -> pcs s' = pcs s) /\
    errors (trace s') = errors (trace s) /\
    sent (trace s') = sent (trace s).
Proof.
  intros env candidate s s'.
  destruct (handleIceCandidate_spec env s candidate)
    as (_ & _ & (Hsent & _ & Herr & _) & Hpcs).
  fold (exec (handleIceCandidate env candidate) s) in *. fold s' in Hsent, Herr, Hpcs.
  repeat split; auto.
  - now apply handleIceCandidate_no_pc.
  - intros later. subst s'. unfold exec.
    now rewrite handleIceCandidate_no_pc.
  - intros p c x Hp Hc -> Hok. rewrite Hp, Hok in Hpcs.
    exists (with_candidate x c). rewrite Hpcs, list_lookup_alter_eq, Hc.
    repeat split.
  - intros e He. rewrite He in Hpcs.
    now destruct (pc s), candidate.
Qed.

Lemma ice_candidate_applied_or_lost_witness :
  pc ex_calling = Some 0 /\
  addIceCandidate ex_env = Ok tt /\
  exists c',
    pcs (exec (handleIceCandidate ex_env (Some "candidate:1")) ex_calling) !! 0
      = Some c' /\
    pc_candidates c' = [] ++ ["candidate:1"] /\
    pc_remoteDescription c' = None.
Proof.
  do 2 (split; [reflexivity|]).
  destruct (ice_candidate_applied_or_lost ex_env (Some "candidate:1") ex_calling)
    as (_ & H & _).
  destruct (H 0 (mkPeerConnection (Some (mkDesc SdpOffer "v=0 local")) None
                   [(0, 0); (0, 1)] [] "new" false) "candidate:1")
    as (c' & Hc & Hcand & Hr & _); try (vm_compute; reflexivity).
  exists c'. repeat split; assumption.
Defined.

(** C1 as stated fails.  First: a candidate arrives on a page with no peer
    connection, then the offer arrives and is answered; the remote
    description is set and no candidate was ever applied.  Second: the page
    has sent its own offer, a candidate arrives and the browser refuses it
    because no remote description is set, then the answer arrives; again the
    candidate is gone. *)
Lemma early_ice_candidate_is_dropped :
  (let s' := run [SocketMessage ex_env (ice_message (Some "S1") "candidate:1");
                  SocketMessage ex_env
                    (offer_message (Some "S1") (mkDesc SdpOffer "v=0 remote"))]
               ex_joined in
   pc ex_joined = None /\
   pc s' = Some 0 /\
   (pc_remoteDescription <$> pcs s' !! 0) = Some (Some (mkDesc SdpOffer "v=0 remote")) /\
   (pc_candidates <$> pcs s' !! 0) = Some []) /\
  (let s' := run [SocketMessage ex_env_early (ice_message (Some "S1") "candidate:1");
                  SocketMessage ex_env
                    (answer_message (Some "S1") (mkDesc SdpAnswer "v=0 remote"))]
               ex_calling in
   (pc_remoteDescription <$> pcs ex_calling !! 0) = Some None /\
   (pc_remoteDescription <$> pcs s' !! 0) = Some (Some (mkDesc SdpAnswer "v=0 remote")) /\
   (pc_candidates <$> pcs s' !! 0) = Some []).
Proof. vm_compute. repeat split. Qed.

(** C4, as the code has it.  On a page reached by any run, whose current
    peer connection holds its own offer as local description, handling an
    incoming offer never creates a peer connection: the same one stays
    current, no object is added and no other peer connection or stream
    changes.  The class itself discards nothing; it hands the incoming offer
    to the browser.  If the browser accepts it and produces an answer, the
    incoming offer becomes the remote description, the answer replaces the
    page's own offer as local description, and the answer is sent if the
    socket is open.  If the browser refuses the offer (or the frame has
    none), the peer connection is as before, its own offer in place; if it
    refuses to produce or to set the answer, the incoming offer is the
    remote description and the own offer still the local one.  In both
    cases nothing is sent and [onError] gets "Failed to handle offer: "
    and the message. *)
Theorem offer_during_own_offer :
  forall (inputs : list Input) (config : Config) (onLocal : bool)
         (env : Env) (msg : Message)
         (p : nat) (c : PeerConnection) (mine : string),
    let s := run inputs (constructor config onLocal) in
    let s' := exec (handleSignalingMessage env msg) s in
    let sid := sessionId (settings s) in
    pc s = Some p -> pcs s !! p = Some c ->
    pc_localDescription c = Some (mkDesc SdpOffer mine) ->
    msg_type msg = "offer" ->
    (pc s' = Some p /\ length (pcs s') = length (pcs s) /\
     (forall q, q <> p -> pcs s' !! q = pcs s !! q) /\
     localStream s' = localStream s /\ streams s' = streams s) /\
    (forall (d : SessionDescription) (sdp : string),
       msg_sdp msg = Some d ->
       setRemoteDescription env = Ok tt ->
       createAnswer env = Ok sdp ->
       setLocalDescription env = Ok tt ->
       let answer := mkDesc SdpAnswer sdp in
       pcs s' !! p =
         Some (mkPeerConnection (Some answer) (Some d) (pc_senders c)
                 (pc_candidates c) (pc_connectionState c) (pc_closed c)) /\
       sent (trace s') =
         sent (trace s) ++
         match ws_open s with
         | Some _ => [mkMessage "answer" sid (Some answer) None None None]
         | None => []
         end /\
       errors (trace s') = errors (trace s)) /\
    (forall e : JsError,
       (msg_sdp msg = None /\ e = typeError env) \/
       (msg_sdp msg <> None /\ setRemoteDescription env = Throw e) ->
       pcs s' = pcs s /\
       sent (trace s') = sent (trace s) /\
       errors (trace s') =
         errors (trace s) ++ ["Failed to handle offer: " +:+ message e]) /\
    (forall (d : SessionDescription) (e : JsError),
       msg_sdp msg = Some d ->
       setRemoteDescription env = Ok tt ->
       createAnswer env = Throw e \/
       (exists sdp, createAnswer env = Ok sdp /\
                    setLocalDescription env = Throw e) ->
       pcs s' !! p =
         Some (mkPeerConnection (Some (mkDesc SdpOffer mine)) (Some d)
                 (pc_senders c) (pc_candidates c) (pc_connectionState c)
                 (pc_closed c)) /\
       sent (trace s') = sent (trace s) /\
       errors (trace s') =
         errors (trace s) ++ ["Failed to handle offer: " +:+ message e]).
Proof.
  intros inputs config onLocal env msg p c mine s s' sid Hp Hc Hmine Hty.
  assert (Hcap : localStream s <> None).
  { apply (run_capture inputs _ (constructor_capture config onLocal)).
    fold s. congruence. }
  destruct (localStream s) as [h|] eqn:Hls; [clear Hcap|congruence].
  subst s' sid. unfold exec. rewrite (dispatch_offer _ _ _ Hty).
  set (s1 := set_trace _ s).
  assert (Hav : capture_available env s1) by (left; cbn; congruence).
  pose proof (handleOffer_reuse_pcs env s1 h p (msg_sdp msg) Hls Hp) as Hobj.
  unfold wp in Hobj.
  set (s' := fst (handleOffer env (msg_sdp msg) s1)) in *.
  change (streams s1) with (streams s) in Hobj.
  change (pcs s1) with (pcs s) in Hobj.
  destruct Hobj as (Hp' & Hls' & Hst' & Hpcs).
  split; [|split; [|split]].
  - split; [exact Hp'|]. split; [|split; [|split; [exact Hls' | exact Hst']]].
    + rewrite Hpcs.
      destruct (msg_sdp msg), (setRemoteDescription env), (createAnswer env),
        (setLocalDescription env); now rewrite ?length_alter.
    + intros q Hq. rewrite Hpcs.
      destruct (msg_sdp msg), (setRemoteDescription env), (createAnswer env),
        (setLocalDescription env); now rewrite ?list_lookup_alter_ne.
  - intros d sdp Hsdp Hr Ha Hl. cbv zeta.
    rewrite Hsdp, Hr, Ha, Hl in Hpcs.
    assert (Hpass : handleOffer_passes env s1 (msg_sdp msg) d sdp)
      by (repeat split; assumption).
    destruct (handleOffer_ok_spec env s1 (msg_sdp msg) d sdp Hpass)
      as (_ & _ & (Hsent & _ & Herr & _)).
    fold s' in Hsent, Herr.
    change (ws_open s1) with (ws_open s) in Hsent.
    change (settings s1) with (settings s) in Hsent.
    subst s1. st_simpl. rewrite sent_log in Hsent. rewrite errors_log in Herr.
    split; [|split; [exact Hsent | exact Herr]].
    rewrite Hpcs, !list_lookup_alter_eq, Hc. cbn. unfold with_localDescription,
      with_remoteDescription. reflexivity.
  - intros e He.
    assert (Hthrow : handleOffer_throws env s1 (msg_sdp msg) e).
    { destruct He as [[Hn ->] | [Hn Hr]].
      - now apply offer_description_missing.
      - destruct (msg_sdp msg) as [d|] eqn:Hsdp; [|congruence].
        now apply (offer_remote_refused _ _ _ _ d). }
    destruct (handleOffer_fail_spec env s1 (msg_sdp msg) e Hthrow)
      as (_ & _ & (Hsent & _ & Herr & _)).
    fold s' in Hsent, Herr.
    subst s1. st_simpl. rewrite sent_log in Hsent. rewrite errors_log in Herr.
    split; [|split; [exact Hsent | exact Herr]].
    rewrite Hpcs. destruct He as [[-> _] | [Hn ->]]; [reflexivity|].
    now destruct (msg_sdp msg).
  - intros d e Hsdp Hr He.
    assert (Hthrow : handleOffer_throws env s1 (msg_sdp msg) e).
    { destruct He as [Ha | (sdp & Ha & Hl)].
      - now apply (offer_answer_refused _ _ _ _ d).
      - now apply (offer_local_refused _ _ _ _ d sdp). }
    destruct (handleOffer_fail_spec env s1 (msg_sdp msg) e Hthrow)
      as (_ & _ & (Hsent & _ & Herr & _)).
    fold s' in Hsent, Herr.
    subst s1. st_simpl. rewrite sent_log in Hsent. rewrite errors_log in Herr.
    split; [|split; [exact Hsent | exact Herr]].
    rewrite Hpcs, Hsdp, Hr.
    assert (Hq : alter (with_remoteDescription d) p (pcs s) !! p =
                 Some (mkPeerConnection (Some (mkDesc SdpOffer mine)) (Some d)
                         (pc_senders c) (pc_candidates c) (pc_connectionState c)
                         (pc_closed c))).
    { rewrite list_lookup_alter_eq, Hc. cbn. unfold with_remoteDescription.
      now rewrite Hmine. }
    destruct He as [-> | (sdp & -> & ->)]; exact Hq.
Qed.

Lemma offer_during_own_offer_witness :
  let msg := offer_message (Some "S1") (mkDesc SdpOffer "v=0 remote") in
  let s := run [CallConnectWebSocket (Ok tt); SocketOpen 0; CallStartCall ex_env]
             (constructor ex_config false) in
  let s' := exec (handleSignalingMessage ex_env msg) s in
  pcs s !! 0 = Some (mkPeerConnection (Some (mkDesc SdpOffer "v=0 local")) None
                       [(0, 0); (0, 1)] [] "new" false) /\
  pc s' = Some 0 /\
  length (pcs s') = length (pcs s) /\
  pcs s' !! 0 = Some (mkPeerConnection (Some (mkDesc SdpAnswer "v=0 reply"))
                        (Some (mkDesc SdpOffer "v=0 remote"))
                        [(0, 0); (0, 1)] [] "new" false) /\
  sent (trace s') =
    sent (trace s) ++
    [mkMessage "answer" (Some "S1") (Some (mkDesc SdpAnswer "v=0 reply"))
       None None None].
Proof.
  intros msg s s'.
  split; [vm_compute; reflexivity|].
  destruct (offer_during_own_offer
              [CallConnectWebSocket (Ok tt); SocketOpen 0; CallStartCall ex_env]
              ex_config false ex_env msg 0
              (mkPeerConnection (Some (mkDesc SdpOffer "v=0 local")) None
                 [(0, 0); (0, 1)] [] "new" false)
              "v=0 local"
              ltac:(vm_compute; reflexivity) ltac:(vm_compute; reflexivity)
              ltac:(vm_compute; reflexivity) ltac:(vm_compute; reflexivity))
    as ((Hp & Hlen & _) & H & _).
  destruct (H (mkDesc SdpOffer "v=0 remote") "v=0 reply"
              ltac:(vm_compute; reflexivity) ltac:(vm_compute; reflexivity)
              ltac:(vm_compute; reflexivity) ltac:(vm_compute; reflexivity))
    as (Hc & Hsent & _).
  subst s' s.
  split; [exact Hp|]. split; [exact Hlen|]. split; [exact Hc|].
  rewrite Hsent. vm_compute. reflexivity.
Defined.

(** C4 as stated fails.  The page has sent its own offer and the other
    side's offer arrives.  First: the browser refuses a remote offer while
    the own offer is pending; the own offer stays, the incoming offer is not
    applied, no answer is sent, and the refusal is reported.  Second: the
    page has meanwhile asked for a new socket, which is not open yet; the
    offer, arriving on the old one, is applied and answered, and the answer
    is not sent. *)
Lemma glare_offer_is_not_answered :
  let msg := offer_message (Some "S1") (mkDesc SdpOffer "v=0 remote") in
  let own := mkPeerConnection (Some (mkDesc SdpOffer "v=0 local")) None
               [(0, 0); (0, 1)] [] "new" false in
  pcs ex_calling !! 0 = Some own /\
  (let s' := step (SocketMessage ex_env_glare msg) ex_calling in
   pcs s' !! 0 = Some own /\
   sent (trace s') = sent (trace ex_calling) /\
   errors (trace s') =
     ["Failed to handle offer: Called in wrong state: have-local-offer"]) /\
  (let s' := run [CallConnectWebSocket (Ok tt); SocketMessage ex_env msg]
               ex_calling in
   pcs s' !! 0 = Some (mkPeerConnection (Some (mkDesc SdpAnswer "v=0 reply"))
                         (Some (mkDesc SdpOffer "v=0 remote"))
                         [(0, 0); (0, 1)] [] "new" false) /\
   sent (trace s') = sent (trace ex_calling) /\
   errors (trace s') = []).
Proof. vm_compute. repeat split. Qed.

(** C6, as the code has it.  [handleSignalingMessage] never reads the
    session id of a frame: two frames that differ in their session id only
    are handled in exactly the same way, whatever the instance's own
    session id is. *)
Theorem session_id_not_checked :
  forall (env : Env) (type : string) (sid sid' : option string)
         (sdp : option SessionDescription) (candidate : option IceCandidate)
         (uid utype : option string) (s : State),
    handleSignalingMessage env (mkMessage type sid sdp candidate uid utype) s =
    handleSignalingMessage env (mkMessage type sid' sdp candidate uid utype) s.
Proof. reflexivity. Qed.

(** C6 as stated fails: the page is in session S1 and negotiating; a
    call-ended frame for session S2 ends the call, closes the peer
    connection, sends a call-ended frame and invokes [onCallEnded]. *)
Lemma foreign_call_ended_ends_the_call :
  let message := call_ended_message (Some "S2") in
  let s' := step (SocketMessage ex_env message) ex_calling in
  sessionId (settings ex_calling) = Some "S1" /\
  msg_sessionId message = Some "S2" /\
  (isCallActive ex_calling = true /\ isCallActive s' = false) /\
  (pc ex_calling = Some 0 /\ pc s' = None) /\
  (pc_closed <$> pcs ex_calling !! 0) = Some false /\
  (pc_closed <$> pcs s' !! 0) = Some true /\
  sent (trace s') = sent (trace ex_calling) ++ [call_ended_message (Some "S1")] /\
  call_ended_count (trace ex_calling) = 0 /\
  call_ended_count (trace s') = 1.
Proof. vm_compute. repeat split. Qed.

(** C7, as the code has it.  Handling an answer or an ice-candidate frame
    never invokes [onConnectionStateChange] and never changes
    [isCallActive].  Handling an offer frame does: when no step of
    [handleOffer] throws, it sets [isCallActive] and invokes
    [onConnectionStateChange] once, with ["connecting"], and reports no
    error; when a step throws, it does neither, sends nothing, and invokes
    [onError] once, with "Failed to handle offer: " followed by the message
    of what was thrown; and every run is of one of these two kinds.  The
    close event of the signaling socket invokes [onConnectionStateChange]
    too, with ["disconnected"]. *)
Theorem state_label_and_signaling :
  forall (env : Env) (msg : Message) (s : State),
    let s' := exec (handleSignalingMessage env msg) s in
    (msg_type msg = "answer" \/ msg_type msg = "ice-candidate" ->
       state_changes (trace s') = state_changes (trace s) /\
       isCallActive s' = isCallActive s) /\
    (msg_type msg = "offer" ->
       (forall d sdp,
          handleOffer_passes env s (msg_sdp msg) d sdp ->
          state_changes (trace s') = state_changes (trace s) ++ ["connecting"] /\
          isCallActive s' = true /\
          errors (trace s') = errors (trace s)) /\
       (forall e,
          handleOffer_throws env s (msg_sdp msg) e ->
          let reason := "Failed to handle offer: " +:+ message e in
          state_changes (trace s') = state_changes (trace s) /\
          isCallActive s' = isCallActive s /\
          sent (trace s') = sent (trace s) /\
          errors (trace s') = errors (trace s) ++ [reason] /\
          String.prefix "Failed to handle offer: " reason = true) /\
       ((exists d sdp, handleOffer_passes env s (msg_sdp msg) d sdp) \/
        (exists e, handleOffer_throws env s (msg_sdp msg) e))) /\
    (forall h,
       state_changes (trace (step (SocketClose h) s)) =
         state_changes (trace s) ++ ["disconnected"]).
Proof.
  intros env msg s s'. subst s'. unfold exec. split; [|split].
  - intros [H|H].
    + rewrite (dispatch_answer _ _ _ H).
      destruct (handleAnswer_spec env (set_trace
                  (trace s ++ [ConsoleLog ["Received signaling message:"; "answer"]]) s)
                  (msg_sdp msg))
        as (_ & (_ & _ & _ & _ & _ & _ & Hact) & (_ & Hch & _)).
      st_simpl. rewrite state_changes_log in Hch. split; assumption.
    + rewrite (dispatch_ice_candidate _ _ _ H).
      destruct (handleIceCandidate_spec env (set_trace
                  (trace s ++ [ConsoleLog ["Received signaling message:"; "ice-candidate"]]) s)
                  (msg_candidate msg))
        as (_ & (_ & _ & _ & _ & _ & _ & Hact) & (_ & Hch & _) & _).
      st_simpl. rewrite state_changes_log in Hch. split; assumption.
  - intros H. rewrite (dispatch_offer _ _ _ H).
    set (s1 := set_trace _ s). split; [|split].
    + intros d sdp Hpass.
      destruct (handleOffer_ok_spec env s1 (msg_sdp msg) d sdp Hpass)
        as (_ & (_ & _ & _ & Hact) & (_ & Hch & Herr & _)).
      subst s1. st_simpl. rewrite state_changes_log in Hch.
      rewrite errors_log in Herr. repeat split; assumption.
    + intros e Hthrow. cbv zeta.
      assert (Hthrow1 : handleOffer_throws env s1 (msg_sdp msg) e)
        by (apply (handleOffer_throws_same env s); [reflexivity | exact Hthrow]).
      destruct (handleOffer_fail_spec env s1 (msg_sdp msg) e Hthrow1)
        as (_ & (_ & _ & _ & Hact) & (Hsent & Hch & Herr & _)).
      subst s1. st_simpl. rewrite state_changes_log in Hch.
      rewrite errors_log in Herr. rewrite sent_log in Hsent.
      repeat split; try assumption. apply prefix_append.
    + apply handleOffer_passes_or_throws.
  - intros h. cbn [step]. unfold exec, ws_onclose, bind, emit, modify.
    st_simpl. now rewrite state_changes_app, state_changes_log.
Qed.

Lemma state_label_and_signaling_witness :
  let offer := offer_message (Some "S1") (mkDesc SdpOffer "v=0 remote") in
  let s1 := exec (handleSignalingMessage ex_env offer) ex_joined in
  let s2 := exec (handleSignalingMessage ex_env_denied offer) ex_joined in
  msg_type offer = "offer" /\
  handleOffer_passes ex_env ex_joined (msg_sdp offer)
    (mkDesc SdpOffer "v=0 remote") "v=0 reply" /\
  handleOffer_throws ex_env_denied ex_joined (msg_sdp offer)
    (mkError "Permission denied") /\
  (state_changes (trace s1) = state_changes (trace ex_joined) ++ ["connecting"] /\
   isCallActive s1 = true) /\
  (state_changes (trace s2) = state_changes (trace ex_joined) /\
   isCallActive s2 = isCallActive ex_joined /\
   errors (trace s2) =
     errors (trace ex_joined) ++ ["Failed to handle offer: Permission denied"]).
Proof.
  intros offer s1 s2.
  assert (Hp : handleOffer_passes ex_env ex_joined (msg_sdp offer)
                 (mkDesc SdpOffer "v=0 remote") "v=0 reply").
  { split; [right; exists ex_tracks; reflexivity|]. repeat split. }
  assert (Ht : handleOffer_throws ex_env_denied ex_joined (msg_sdp offer)
                 (mkError "Permission denied")).
  { apply offer_capture_refused; vm_compute; reflexivity. }
  split; [reflexivity|]. split; [exact Hp|]. split; [exact Ht|].
  split.
  - destruct (state_label_and_signaling ex_env offer ex_joined)
      as (_ & H & _).
    destruct (H eq_refl) as (Hok & _).
    destruct (Hok _ _ Hp) as (Hch & Hact & _). split; assumption.
  - destruct (state_label_and_signaling ex_env_denied offer ex_joined)
      as (_ & H & _).
    destruct (H eq_refl) as (_ & Hfail & _).
    destruct (Hfail _ Ht) as (Hch & Hact & _ & Herr & _).
    repeat split; assumption.
Defined.

(** C7 as stated fails: handling an offer frame invokes
    [onConnectionStateChange] (with ["connecting"]) and sets
    [isCallActive]; and the socket closing, which is neither a MediaEngine
    callback nor a command, invokes it with ["disconnected"]. *)
Lemma offer_frame_changes_state_label :
  let message := offer_message (Some "S1") (mkDesc SdpOffer "v=0 remote") in
  let s' := step (SocketMessage ex_env message) ex_joined in
  state_changes (trace ex_joined) = [] /\
  state_changes (trace s') = ["connecting"] /\
  isCallActive ex_joined = false /\
  isCallActive s' = true /\
  state_changes (trace (step (SocketClose 0) ex_joined)) = ["disconnected"].
Proof. vm_compute. repeat split. Qed.

(** ** What every run keeps *)

Section Kept.

(** Close a leaf of a run whose goal is [kept]. *)
Ltac kept_done :=
  unfold kept, handles_valid, in_store; st_simpl;
  repeat match goal with H : ?x = _ |- context [?x] => rewrite H end;
  rewrite ?length_app, ?length_alter; cbn [length];
  split; [reflexivity|]; split;
  [ intuition lia
  | rewrite ?sent_app, ?Forall_app; unfold sent, carries; cbn;
    intuition (repeat constructor) ].

Lemma kept_refl s : kept s s.
Proof. unfold kept. auto. Qed.

Lemma kept_trans s1 s2 s3 : kept s1 s2 -> kept s2 s3 -> kept s1 s3.
Proof.
  unfold kept. intros (E1 & H1 & F1) (E2 & H2 & F2). rewrite E1 in *.
  split; [congruence|]. split; auto.
Qed.

Lemma startCall_kept env s : wp (startCall env) (fun s' _ => kept s s') s.
Proof. unfold startCall. wp_run; kept_done. Qed.

Lemma handleOffer_kept env sdp s :
  wp (handleOffer env sdp) (fun s' _ => kept s s') s.
Proof. unfold handleOffer. wp_run; kept_done. Qed.

Lemma handleAnswer_kept env sdp s :
  wp (handleAnswer env sdp) (fun s' _ => kept s s') s.
Proof. unfold handleAnswer. wp_run; kept_done. Qed.

Lemma handleIceCandidate_kept env c s :
  wp (handleIceCandidate env c) (fun s' _ => kept s s') s.
Proof. unfold handleIceCandidate. wp_run; kept_done. Qed.

Lemma endCall_kept env s : wp (endCall env) (fun s' _ => kept s s') s.
Proof. unfold endCall. wp_run; kept_done. Qed.

Lemma handleSignalingMessage_kept env msg s :
  wp (handleSignalingMessage env msg) (fun s' _ => kept s s') s.
Proof.
  unfold handleSignalingMessage. apply wp_bind, wp_emit. st_simpl.
  set (s1 := set_trace _ s).
  assert (H1 : kept s s1) by (subst s1; kept_done).
  repeat lazymatch goal with
         | |- wp (if ?b then _ else _) _ _ => destruct b
         end.
  - eapply wp_mono; [|apply handleOffer_kept]. eauto using kept_trans.
  - eapply wp_mono; [|apply handleAnswer_kept]. eauto using kept_trans.
  - eapply wp_mono; [|apply handleIceCandidate_kept]. eauto using kept_trans.
  - eapply wp_mono; [|apply endCall_kept]. eauto using kept_trans.
  - apply wp_emit. eapply kept_trans; [exact H1|]. kept_done.
Qed.

Lemma exec_kept {A} (m : M A) s s1 :
  kept s s1 -> wp m (fun s' _ => kept s1 s') s1 -> kept s (exec m s1).
Proof. unfold wp, exec. eauto using kept_trans. Qed.

Lemma step_kept i s : kept s (step i s).
Proof.
  destruct i; cbn [step]; unfold destroy;
    (apply exec_kept; [kept_done|]).
  - unfold connectWebSocket. wp_run; kept_done.
  - apply startCall_kept.
  - unfold toggleVideo. wp_run; kept_done.
  - unfold toggleAudio. wp_run; kept_done.
  - apply endCall_kept.
  - apply endCall_kept.
  - unfold ws_onopen. wp_run; kept_done.
  - apply handleSignalingMessage_kept.
  - unfold ws_onerror. wp_run; kept_done.
  - unfold ws_onclose. wp_run; kept_done.
  - unfold pc_ontrack. wp_run; kept_done.
  - unfold pc_onicecandidate. wp_run; kept_done.
  - unfold pc_onconnectionstatechange. wp_run; kept_done.
Qed.

Lemma run_kept inputs s : kept s (run inputs s).
Proof.
  revert s. induction inputs as [|i inputs IH]; intros s; [apply kept_refl|].
  cbn. eapply kept_trans; [apply step_kept | apply IH].
Qed.

End Kept.

(** X1.  Nothing that can happen to an instance reassigns what the
    constructor stored: endpoints, session id, user id and user type are the
    same after every run.  The constructor stores an empty session id as
    null, so the session id of an instance is never the empty string. *)
Theorem settings_never_change :
  forall (inputs : list Input) (config : Config) (onLocal : bool) (s : State),
    settings (run inputs s) = settings s /\
    sessionId (settings (run inputs (constructor config onLocal)))
      = or_null (cfg_sessionId config) /\
    sessionId (settings (run inputs (constructor config onLocal))) <> Some "".
Proof.
  intros inputs config onLocal s.
  split; [apply run_kept|].
  destruct (run_kept inputs (constructor config onLocal)) as (-> & _).
  cbn. split; [reflexivity|].
  destruct (cfg_sessionId config) as [x|]; cbn; [|discriminate].
  destruct (String.eqb_spec x ""); congruence.
Qed.

(** X2.  Every frame an instance ever sent (join, offer, answer,
    ice-candidate, call-ended) names the session id the instance was
    constructed with. *)
Theorem sent_frames_name_the_session :
  forall (inputs : list Input) (config : Config) (onLocal : bool),
    Forall (carries (or_null (cfg_sessionId config)))
      (sent (trace (run inputs (constructor config onLocal)))).
Proof.
  intros inputs config onLocal.
  destruct (run_kept inputs (constructor config onLocal)) as (_ & _ & H).
  apply H. constructor.
Qed.

(** Along every run, [ws], [pc] and [localStream] are null or point to an
    object in their store. *)
Lemma handles_never_dangle :
  forall (inputs : list Input) (config : Config) (onLocal : bool),
    handles_valid (run inputs (constructor config onLocal)).
Proof.
  intros inputs config onLocal.
  destruct (run_kept inputs (constructor config onLocal)) as (_ & H & _).
  apply H. repeat split.
Qed.

(** ** Frames the claims leave out *)

(** X3.  A frame whose type is none of offer, answer, ice-candidate and
    call-ended (a join echoed by the server, a type in another letter case,
    anything unknown) is logged twice to the console and otherwise ignored:
    no field of the instance and no browser object changes, nothing is sent
    and no callback is invoked. *)
Theorem unknown_frame_is_only_logged :
  forall (env : Env) (msg : Message) (s : State),
    known_type (msg_type msg) = false ->
    handleSignalingMessage env msg s =
      (set_trace
         (trace s ++ [ConsoleLog ["Received signaling message:"; msg_type msg];
                      ConsoleLog ["Unknown message type:"; msg_type msg]]) s,
       Ok tt).
Proof.
  intros env msg s H. unfold known_type in H.
  apply orb_false_elim in H as [H H4]. apply orb_false_elim in H as [H H3].
  apply orb_false_elim in H as [H1 H2].
  unfold handleSignalingMessage, bind, emit, modify. cbn.
  rewrite H1, H2, H3, H4. st_simpl. now rewrite <- app_assoc.
Qed.

Lemma unknown_frame_is_only_logged_witness :
  known_type (msg_type (join_message (Some "S1") "therapist-2" "therapist")) = false /\
  exec (handleSignalingMessage ex_env
          (join_message (Some "S1") "therapist-2" "therapist")) ex_calling =
    set_trace
      (trace ex_calling ++ [ConsoleLog ["Received signaling message:"; "join"];
                            ConsoleLog ["Unknown message type:"; "join"]])
      ex_calling.
Proof.
  split; [reflexivity|]. unfold exec.
  rewrite (unknown_frame_is_only_logged ex_env
             (join_message (Some "S1") "therapist-2" "therapist") ex_calling);
    reflexivity.
Defined.

Section Answer.

Variable env : Env.

Lemma handleAnswer_cases s answerSdp :
  wp (handleAnswer env answerSdp)
    (fun s' r =>
       r = Ok tt /\
       (settings s' = settings s /\ ws s' = ws s /\ sockets s' = sockets s /\
        localStream s' = localStream s /\ streams s' = streams s /\
        pc s' = pc s /\ isCallActive s' = isCallActive s) /\
       match pc s, answerSdp, setRemoteDescription env with
       | None, _, _ => s' = s
       | Some p, Some d, Ok _ =>
           pcs s' = alter (with_remoteDescription d) p (pcs s) /\
           trace s' = trace s
       | Some p, None, _ =>
           pcs s' = pcs s /\
           errors (trace s') =
             errors (trace s) ++ ["Failed to handle answer: " +:+ message (typeError env)]
       | Some p, Some d, Throw e =>
           pcs s' = pcs s /\
           errors (trace s') =
             errors (trace s) ++ ["Failed to handle answer: " +:+ message e]
       end) s.
Proof.
  unfold handleAnswer. wp_run.
  all: split; [reflexivity|];
    split; [repeat split; first [reflexivity | congruence]|].
  all: first [ reflexivity
             | split; [reflexivity|];
               first [reflexivity | trace_simpl; reflexivity] ].
Qed.

End Answer.

(** X4.  [handleAnswer] does nothing at all when no peer connection exists.
    Otherwise, when the browser accepts the description, it becomes the
    remote description of the current peer connection, whatever its local
    description is, and nothing else changes, the trace included; when the
    frame has no description or the browser rejects it, no peer connection
    changes and [onError] is invoked once with "Failed to handle answer: "
    followed by the message of the error: the one the engine raises for a
    missing description, or the one the browser rejected with. *)
Theorem answer_is_applied_or_reported :
  forall (env : Env) (answerSdp : option SessionDescription) (s : State),
    let s' := exec (handleAnswer env answerSdp) s in
    (pc s = None -> handleAnswer env answerSdp s = (s, Ok tt)) /\
    (forall p c d,
       pc s = Some p -> pcs s !! p = Some c -> answerSdp = Some d ->
       setRemoteDescription env = Ok tt ->
       pcs s' !! p = Some (with_remoteDescription d c) /\
       (forall q, q <> p -> pcs s' !! q = pcs s !! q) /\
       trace s' = trace s /\ isCallActive s' = isCallActive s) /\
    (forall p e,
       pc s = Some p ->
       (answerSdp = None /\ e = typeError env) \/
       (answerSdp <> None /\ setRemoteDescription env = Throw e) ->
       pcs s' = pcs s /\
       errors (trace s') =
         errors (trace s) ++ ["Failed to handle answer: " +:+ message e]).
Proof.
  intros env answerSdp s s'.
  pose proof (handleAnswer_cases env s answerSdp) as H. unfold wp in H.
  fold (exec (handleAnswer env answerSdp) s) in H. fold s' in H.
  destruct H as (Hr & (_ & _ & _ & _ & _ & _ & Hact) & H).
  split; [|split].
  - intros Hp. rewrite Hp in H.
    rewrite (surjective_pairing (handleAnswer env answerSdp s)).
    unfold exec in s'. fold s'. now rewrite H, Hr.
  - intros p c d Hp Hc -> Ho. rewrite Hp, Ho in H. destruct H as [H Ht].
    rewrite H. repeat split; auto.
    + now rewrite list_lookup_alter_eq, Hc.
    + intros q Hq. now rewrite list_lookup_alter_ne.
  - intros p e Hp [[-> ->] | [Hn He]]; rewrite Hp in H.
    + exact H.
    + destruct answerSdp as [d|]; [|congruence]. now rewrite He in H.
Qed.

Lemma answer_is_applied_or_reported_witness :
  let s1 := exec (handleAnswer ex_env (Some (mkDesc SdpAnswer "v=0 remote")))
              ex_calling in
  let s2 := exec (handleAnswer ex_env None) ex_calling in
  pc ex_calling = Some 0 /\
  setRemoteDescription ex_env = Ok tt /\
  typeError ex_env = mkError "Invalid RTCSdpType" /\
  (pc_remoteDescription <$> pcs s1 !! 0) =
    Some (Some (mkDesc SdpAnswer "v=0 remote")) /\
  pcs s2 = pcs ex_calling /\
  errors (trace s2) =
    errors (trace ex_calling) ++ ["Failed to handle answer: Invalid RTCSdpType"].
Proof.
  intros s1 s2. do 3 (split; [reflexivity|]).
  split.
  - destruct (answer_is_applied_or_reported ex_env
                (Some (mkDesc SdpAnswer "v=0 remote")) ex_calling) as (_ & H & _).
    destruct (H 0 (mkPeerConnection (Some (mkDesc SdpOffer "v=0 local")) None
                     [(0, 0); (0, 1)] [] "new" false)
                (mkDesc SdpAnswer "v=0 remote")
                ltac:(vm_compute; reflexivity) ltac:(vm_compute; reflexivity)
                ltac:(vm_compute; reflexivity) ltac:(vm_compute; reflexivity))
      as (Hc & _).
    subst s1. rewrite Hc. reflexivity.
  - destruct (answer_is_applied_or_reported ex_env None ex_calling)
      as (_ & _ & H).
    exact (H 0 (typeError ex_env) ltac:(vm_compute; reflexivity)
             (or_introl (conj eq_refl eq_refl))).
Defined.

Section IceOrder.

Variables (env : Env) (sid : option string).
Hypothesis accepted : addIceCandidate env = Ok tt.

Lemma ice_frame_step x s p :
  pc s = Some p ->
  let s' := step (SocketMessage env (ice_message sid x)) s in
  pcs s' = alter (with_candidate x) p (pcs s) /\
  pc s' = Some p /\
  (ws s' = ws s /\ sockets s' = sockets s /\ localStream s' = localStream s /\
   streams s' = streams s /\ isCallActive s' = isCallActive s) /\
  (sent (trace s') = sent (trace s) /\
   state_changes (trace s') = state_changes (trace s) /\
   errors (trace s') = errors (trace s) /\
   call_ended_count (trace s') = call_ended_count (trace s)).
Proof.
  intros Hp s'. subst s'. cbn [step]. unfold exec, ws_onmessage.
  rewrite dispatch_ice_candidate by reflexivity.
  cbn [msg_candidate ice_message].
  set (s1 := set_trace _ s).
  destruct (handleIceCandidate_spec env s1 (Some x))
    as (_ & (_ & Hw & Hso & Hl & Hst & Hpc & Hact) & (Hs & Hc & He & Hn) & Hpcs).
  change (pc s1) with (pc s) in Hpcs. rewrite Hp, accepted in Hpcs.
  subst s1. st_simpl.
  rewrite sent_log in Hs. rewrite state_changes_log in Hc.
  rewrite errors_log in He. rewrite call_ended_count_log in Hn.
  repeat split; try assumption. rewrite Hpc. exact Hp.
Qed.

Lemma ice_frames_run cs : forall s p c,
  pc s = Some p -> pcs s !! p = Some c ->
  let s' := run (ice_frames env sid cs) s in
  (exists c',
     pcs s' !! p = Some c' /\
     pc_candidates c' = pc_candidates c ++ cs /\
     pc_remoteDescription c' = pc_remoteDescription c /\
     pc_localDescription c' = pc_localDescription c /\
     pc_senders c' = pc_senders c /\
     pc_connectionState c' = pc_connectionState c /\
     pc_closed c' = pc_closed c) /\
  (forall q, q <> p -> pcs s' !! q = pcs s !! q) /\
  pc s' = Some p /\
  (ws s' = ws s /\ sockets s' = sockets s /\ localStream s' = localStream s /\
   streams s' = streams s /\ isCallActive s' = isCallActive s) /\
  (sent (trace s') = sent (trace s) /\
   state_changes (trace s') = state_changes (trace s) /\
   errors (trace s') = errors (trace s) /\
   call_ended_count (trace s') = call_ended_count (trace s)).
Proof.
  induction cs as [|x cs IH]; intros s p c Hp Hc.
  - cbn. split; [exists c; rewrite app_nil_r; auto 10|]. auto 10.
  - change (run (ice_frames env sid (x :: cs)) s)
      with (run (ice_frames env sid cs)
              (step (SocketMessage env (ice_message sid x)) s)).
    cbv zeta.
    destruct (ice_frame_step x s p Hp)
      as (Hpcs & Hp1 & (E1 & E2 & E3 & E4 & E5) & (T1 & T2 & T3 & T4)).
    set (s1 := step (SocketMessage env (ice_message sid x)) s) in *.
    assert (Hc1 : pcs s1 !! p = Some (with_candidate x c))
      by now rewrite Hpcs, list_lookup_alter_eq, Hc.
    destruct (IH s1 p _ Hp1 Hc1)
      as ((c' & L & C1 & C2 & C3 & C4 & C5 & C6) & Hq & Hp2
          & (F1 & F2 & F3 & F4 & F5) & (U1 & U2 & U3 & U4)).
    split; [|split; [|split; [|split]]].
    + exists c'. cbn in C1. rewrite <- app_assoc in C1. auto 10.
    + intros q Hne. rewrite Hq by exact Hne.
      now rewrite Hpcs, list_lookup_alter_ne.
    + exact Hp2.
    + repeat split; congruence.
    + repeat split; congruence.
Qed.

End IceOrder.

(** X5.  Once a peer connection exists, ice-candidate frames that the
    browser accepts are applied in the order they arrive: after any number
    of them, the candidates of the current peer connection are those it had
    followed by the new ones in arrival order, and nothing else about it,
    about any other peer connection, or about what the outside sees has
    changed. *)
Theorem candidates_applied_in_arrival_order :
  forall (env : Env) (sid : option string) (cs : list IceCandidate)
         (s : State) (p : nat) (c : PeerConnection),
    addIceCandidate env = Ok tt ->
    pc s = Some p -> pcs s !! p = Some c ->
    let s' := run (ice_frames env sid cs) s in
    (exists c',
       pcs s' !! p = Some c' /\
       pc_candidates c' = pc_candidates c ++ cs /\
       pc_remoteDescription c' = pc_remoteDescription c /\
       pc_localDescription c' = pc_localDescription c /\
       pc_senders c' = pc_senders c /\
       pc_closed c' = pc_closed c) /\
    (forall q, q <> p -> pcs s' !! q = pcs s !! q) /\
    pc s' = Some p /\
    sent (trace s') = sent (trace s) /\
    state_changes (trace s') = state_changes (trace s) /\
    errors (trace s') = errors (trace s).
Proof.
  intros env sid cs s p c Ha Hp Hc s'.
  destruct (ice_frames_run env sid Ha cs s p c Hp Hc)
    as ((c' & L & C1 & C2 & C3 & C4 & _ & C6) & Hq & Hp2 & _ & (U1 & U2 & U3 & _)).
  split; [exists c'; auto 10|]. auto 10.
Qed.

Lemma candidates_applied_in_arrival_order_witness :
  addIceCandidate ex_env = Ok tt /\
  pc ex_calling = Some 0 /\
  exists c',
    pcs (run (ice_frames ex_env (Some "S1") ["candidate:1"; "candidate:2"; "candidate:3"])
           ex_calling) !! 0 = Some c' /\
    pc_candidates c' = [] ++ ["candidate:1"; "candidate:2"; "candidate:3"].
Proof.
  do 2 (split; [reflexivity|]).
  destruct (candidates_applied_in_arrival_order ex_env (Some "S1")
              ["candidate:1"; "candidate:2"; "candidate:3"] ex_calling 0
              (mkPeerConnection (Some (mkDesc SdpOffer "v=0 local")) None
                 [(0, 0); (0, 1)] [] "new" false))
    as ((c' & L & C & _) & _); try (vm_compute; reflexivity).
  exists c'. split; assumption.
Defined.

(** X6.  A connection-state event reports the state of the peer connection
    the instance currently holds, which need not be the one the event is
    for: for the current one the new state is reported, for any other one
    the current one's state is.  [onError] is invoked, with "Connection
    failed", exactly when the reported state is "failed" or
    "disconnected".  After the call has ended ([pc] null) the handler
    invokes no callback. *)
Theorem connection_state_event :
  forall (env : Env) (s : State) (p : nat) (cs : string),
    let s' := step (PcConnectionState env p cs) s in
    (pc s = None ->
       state_changes (trace s') = state_changes (trace s) /\
       errors (trace s') = errors (trace s)) /\
    (forall q c,
       pc s = Some q -> pcs s !! q = Some c ->
       let reported := if decide (p = q) then cs else pc_connectionState c in
       state_changes (trace s') = state_changes (trace s) ++ [reported] /\
       errors (trace s') =
         errors (trace s) ++
         (if is_failure reported then ["Connection failed"] else [])) /\
    pc s' = pc s /\ isCallActive s' = isCallActive s /\
    sent (trace s') = sent (trace s).
Proof.
  intros env s p cs s'. subst s'. cbn [step]. unfold exec.
  set (s1 := set_pcs _ s).
  split; [|split].
  - intros Hp.
    change (wp (pc_onconnectionstatechange env)
              (fun s' _ =>
                 state_changes (trace s') = state_changes (trace s) /\
                 errors (trace s') = errors (trace s)) s1).
    subst s1. unfold pc_onconnectionstatechange. wp_run. auto.
  - intros q c Hq Hc. cbv zeta.
    set (reported := if decide (p = q) then cs else pc_connectionState c).
    assert (Hrep : default "" (pc_connectionState <$>
                     alter (with_connectionState cs) p (pcs s) !! q) = reported).
    { rewrite list_lookup_alter. subst reported.
      case_decide; subst; now rewrite Hc. }
    change (wp (pc_onconnectionstatechange env)
              (fun s' _ =>
                 state_changes (trace s') = state_changes (trace s) ++ [reported] /\
                 errors (trace s') =
                   errors (trace s) ++
                   (if is_failure reported then ["Connection failed"] else []))
              s1).
    subst s1. unfold pc_onconnectionstatechange, is_failure.
    do 8 wp_step. rewrite Hrep. wp_run; wp_done.
  - assert (H : wp (pc_onconnectionstatechange env)
                  (fun s' _ => pc s' = pc s /\ isCallActive s' = isCallActive s /\
                               sent (trace s') = sent (trace s)) s1).
    { subst s1. unfold pc_onconnectionstatechange. wp_run; wp_done. }
    exact H.
Qed.

Lemma connection_state_event_witness :
  pc ex_calling = Some 0 /\
  let s' := step (PcConnectionState ex_env 0 "failed") ex_calling in
  state_changes (trace s') = state_changes (trace ex_calling) ++ ["failed"] /\
  errors (trace s') = errors (trace ex_calling) ++ ["Connection failed"].
Proof.
  split; [reflexivity|].
  destruct (connection_state_event ex_env ex_calling 0 "failed") as (_ & H & _).
  apply (H 0 (mkPeerConnection (Some (mkDesc SdpOffer "v=0 local")) None
                [(0, 0); (0, 1)] [] "new" false));
    vm_compute; reflexivity.
Defined.

(** ** The signaling socket *)

Lemma ws_open_snoc_connecting s :
  ws_open (set_ws (Some (length (sockets s)))
             (set_sockets (sockets s ++ [mkWebSocket CONNECTING]) s)) = None.
Proof. unfold ws_open. st_simpl. now rewrite lookup_snoc. Qed.

(** X7.  [connectWebSocket()] stores a new socket in [ws] and leaves every
    socket created before as it was (a socket still open is not closed).
    Until the new socket opens nothing can be sent; when it opens, the join
    frame with the instance's session id, user id and user type is sent on
    it.  If the socket cannot be created, [ws] keeps its value and the error
    goes to the console, not to [onError]. *)
Theorem connect_then_join :
  forall (s : State),
    let h := length (sockets s) in
    let s1 := step (CallConnectWebSocket (Ok tt)) s in
    let s2 := step (SocketOpen h) s1 in
    (ws s1 = Some h /\ sockets s1 = sockets s ++ [mkWebSocket CONNECTING] /\
     ws_open s1 = None /\ trace s1 = trace s) /\
    (ws_open s2 = Some h /\
     sent (trace s2) =
       sent (trace s) ++
       [join_message (sessionId (settings s)) (userId (settings s))
          (userType (settings s))] /\
     errors (trace s2) = errors (trace s)) /\
    (forall e,
       let s' := step (CallConnectWebSocket (Throw e)) s in
       ws s' = ws s /\ sockets s' = sockets s /\
       errors (trace s') = errors (trace s) /\
       trace s' = trace s ++ [ConsoleError ["Error connecting WebSocket:"; message e]]).
Proof.
  intros s h s1 s2. subst h s1 s2. split; [|split].
  - cbn [step]. unfold exec, connectWebSocket, try_catch, bind, await, modify.
    cbn [fst snd]. repeat split. apply ws_open_snoc_connecting.
  - cbn [step]. unfold exec, connectWebSocket, try_catch, bind, await, modify.
    cbn [fst snd]. st_simpl. rewrite alter_snoc.
    set (s1 := set_sockets _ _).
    assert (Hopen : ws_open s1 = Some (length (sockets s))).
    { subst s1. unfold ws_open. st_simpl. now rewrite lookup_snoc. }
    assert (H : wp ws_onopen
                  (fun s' _ =>
                     ws_open s' = ws_open s1 /\
                     sent (trace s') =
                       sent (trace s1) ++
                       [join_message (sessionId (settings s1)) (userId (settings s1))
                          (userType (settings s1))] /\
                     errors (trace s') = errors (trace s1)) s1).
    { unfold ws_onopen. wp_run; wp_done. }
    destruct H as (H1 & H2 & H3). rewrite H1, H2, H3. auto.
  - intros e s'. subst s'. cbn [step].
    unfold exec, connectWebSocket, try_catch, bind, await, emit, modify.
    cbn [fst snd]. st_simpl. rewrite errors_app. cbn. rewrite app_nil_r. auto.
Qed.

(** X8.  When the signaling socket closes, the instance reports
    "disconnected" and keeps everything else: [ws] still points to the
    closed socket, the peer connection and the local stream are still held
    and the call is still active.  From then on the socket test fails, so
    every later frame (here a local ice candidate) is dropped with a
    console error instead of being sent. *)
Theorem socket_close_stops_sending :
  forall (s : State) (h : nat),
    ws s = Some h ->
    let s' := step (SocketClose h) s in
    (ws s' = Some h /\ pc s' = pc s /\ localStream s' = localStream s /\
     isCallActive s' = isCallActive s /\ pcs s' = pcs s /\ streams s' = streams s) /\
    state_changes (trace s') = state_changes (trace s) ++ ["disconnected"] /\
    ws_open s' = None /\
    (forall c,
       let s'' := step (PcIceCandidate (Some c)) s' in
       sent (trace s'') = sent (trace s') /\
       trace s'' = trace s' ++ [ConsoleError ["WebSocket not connected"]]).
Proof.
  intros s h Hws s'.
  assert (Hopen : ws_open s' = None).
  { subst s'. cbn [step]. unfold exec, ws_onclose, bind, emit, modify, ws_open.
    st_simpl. rewrite Hws, list_lookup_alter_eq.
    now destruct (sockets s !! h). }
  split; [|split; [|split]]; [| |exact Hopen|].
  - subst s'. cbn [step]. unfold exec, ws_onclose, bind, emit, modify.
    st_simpl. auto 10.
  - subst s'. cbn [step]. unfold exec, ws_onclose, bind, emit, modify.
    st_simpl. now rewrite state_changes_app, state_changes_log.
  - intros c s''. subst s''. cbn [step].
    unfold exec, pc_onicecandidate, bind, gets, sendWebSocketMessage, bind,
      gets, emit, modify.
    cbn [fst snd]. rewrite Hopen. cbn [fst snd]. st_simpl.
    rewrite sent_app. cbn. now rewrite app_nil_r.
Qed.

Lemma socket_close_stops_sending_witness :
  ws ex_calling = Some 0 /\
  let s' := step (SocketClose 0) ex_calling in
  ws s' = Some 0 /\ ws_open s' = None /\ isCallActive s' = true /\
  state_changes (trace s') = state_changes (trace ex_calling) ++ ["disconnected"].
Proof.
  split; [reflexivity|].
  destruct (socket_close_stops_sending ex_calling 0 eq_refl)
    as ((Hw & _ & _ & Hact & _) & Hch & Hopen & _).
  split; [exact Hw|]. split; [exact Hopen|].
  split; [rewrite Hact; vm_compute; reflexivity | exact Hch].
Defined.

(** ** endCall and the session registry *)

Lemma fetches_app t u : fetches (t ++ u) = fetches t ++ fetches u.
Proof. apply omap_app. Qed.

(** X9.  [endCall()] asks the session registry to end the session exactly
    when the instance has a session id: one POST to
    [apiBaseUrl/sessions/<id>/end], and none without a session id.  A
    failure of that request is logged to the console and goes no further:
    [onError] is not invoked and the result of [endCall()] is the same. *)
Theorem session_end_request :
  forall (env : Env) (s : State),
    let s' := exec (endCall env) s in
    let sid := sessionId (settings s) in
    fetches (trace s') =
      fetches (trace s) ++
      (if truthy sid
       then [session_end_url (apiBaseUrl (settings s)) (default "" sid)]
       else []) /\
    errors (trace s') = errors (trace s) /\
    snd (endCall env s) = Ok tt /\
    (forall e,
       fetch env = Throw e -> truthy sid = true ->
       last (trace s') = Some (ConsoleError ["Error ending session:"; message e])).
Proof.
  intros env s s' sid. subst s' sid.
  change (wp (endCall env)
            (fun s' r =>
               fetches (trace s') =
                 fetches (trace s) ++
                 (if truthy (sessionId (settings s))
                  then [session_end_url (apiBaseUrl (settings s))
                          (default "" (sessionId (settings s)))]
                  else []) /\
               errors (trace s') = errors (trace s) /\
               r = Ok tt /\
               (forall e,
                  fetch env = Throw e -> truthy (sessionId (settings s)) = true ->
                  last (trace s') =
                    Some (ConsoleError ["Error ending session:"; message e]))) s).
  unfold endCall. wp_run.
  all: split; [rewrite ?fetches_app; cbn; rewrite ?app_nil_r; reflexivity|].
  all: split; [trace_simpl; reflexivity|].
  all: split; [reflexivity|].
  all: intros e' He' Ht'; try congruence.
  all: rewrite last_snoc; congruence.
Qed.

Lemma session_end_request_witness :
  let env := mkEnv (Ok ex_tracks) (Ok "v=0 local") (Ok "v=0 reply")
               (Ok tt) (Ok tt) (Ok tt) (Throw (mkError "Failed to fetch"))
               (mkError "Invalid RTCSdpType") in
  fetch env = Throw (mkError "Failed to fetch") /\
  truthy (sessionId (settings ex_calling)) = true /\
  last (trace (exec (endCall env) ex_calling)) =
    Some (ConsoleError ["Error ending session:"; "Failed to fetch"]) /\
  fetches (trace (exec (endCall env) ex_calling)) =
    ["https://api.example/sessions/S1/end"].
Proof.
  intros env. do 2 (split; [reflexivity|]).
  destruct (session_end_request env ex_calling) as (Hf & _ & _ & Hl).
  split; [exact (Hl _ eq_refl eq_refl)|].
  rewrite Hf. vm_compute. reflexivity.
Defined.

(** ** Calling startCall again *)

(** X10.  [startCall()] does not release what the instance holds.  If a
    peer connection and a local stream are held when it is called, they
    stay as they are, the instance only forgets them; a later [endCall()]
    closes the new peer connection and stops the new tracks, and leaves the
    first peer connection unclosed and the first tracks running. *)
Theorem second_startCall_orphans_the_first :
  forall (env env' : Env) (s : State) (p h : nat) (c : PeerConnection)
         (old tracks : list Track) (sdp : string),
    pc s = Some p -> pcs s !! p = Some c ->
    localStream s = Some h -> streams s !! h = Some old ->
    getUserMedia env = Ok tracks ->
    createOffer env = Ok sdp ->
    setLocalDescription env = Ok tt ->
    let s1 := exec (startCall env) s in
    let s2 := exec (endCall env') s1 in
    (pc s1 = Some (length (pcs s)) /\ localStream s1 = Some (length (streams s)) /\
     pcs s1 !! p = Some c /\ streams s1 !! h = Some old) /\
    (pc s2 = None /\ localStream s2 = None /\
     pcs s2 !! p = Some c /\ streams s2 !! h = Some old) /\
    (pc_closed <$> pcs s2 !! length (pcs s)) = Some true /\
    streams s2 !! length (streams s) = Some (map stop tracks).
Proof.
  intros env env' s p h c old tracks sdp Hp Hc Hl Hs Hg Ho Hd s1 s2.
  destruct (startCall_ok_spec env s tracks sdp Hg Ho Hd)
    as (_ & _ & (L1 & S1 & P1 & C1 & _) & _).
  fold (exec (startCall env) s) in L1, S1, P1, C1. fold s1 in L1, S1, P1, C1.
  destruct (endCall_handles env' s1) as (P2 & L2 & _).
  destruct (endCall_objects env' s1) as (C2 & S2 & _).
  fold s2 in P2, L2, C2, S2. rewrite P1 in C2. rewrite L1 in S2.
  pose proof (lookup_lt_Some _ _ _ Hc) as Hlt.
  pose proof (lookup_lt_Some _ _ _ Hs) as Hlt'.
  assert (Hc1 : pcs s1 !! p = Some c) by now rewrite C1, lookup_app_l.
  assert (Hs1 : streams s1 !! h = Some old) by now rewrite S1, lookup_app_l.
  repeat split; auto.
  - rewrite C2, list_lookup_alter_ne by lia. exact Hc1.
  - rewrite S2, list_lookup_alter_ne by lia. exact Hs1.
  - now rewrite C2, C1, alter_snoc, lookup_snoc.
  - now rewrite S2, S1, alter_snoc, lookup_snoc.
Qed.

Lemma second_startCall_orphans_the_first_witness :
  pc ex_calling = Some 0 /\ localStream ex_calling = Some 0 /\
  let s2 := exec (endCall ex_env) (exec (startCall ex_env) ex_calling) in
  (pc_closed <$> pcs s2 !! 0) = Some false /\
  streams s2 !! 0 = Some ex_tracks /\
  (pc_closed <$> pcs s2 !! 1) = Some true.
Proof.
  do 2 (split; [reflexivity|]).
  destruct (second_startCall_orphans_the_first ex_env ex_env ex_calling 0 0
              (mkPeerConnection (Some (mkDesc SdpOffer "v=0 local")) None
                 [(0, 0); (0, 1)] [] "new" false)
              ex_tracks ex_tracks "v=0 local")
    as (_ & (_ & _ & Hc & Hs) & Hnew & _); try (vm_compute; reflexivity).
  cbv zeta. rewrite Hc. split; [reflexivity|]. split; [exact Hs | exact Hnew].
Defined.

(** ** A whole call *)

Lemma ws_open_eq s s' :
  ws s' = ws s -> sockets s' = sockets s -> ws_open s' = ws_open s.
Proof. unfold ws_open. now intros -> ->. Qed.

Lemma run_app a b s : run (a ++ b) s = run b (run a s).
Proof. apply fold_left_app. Qed.

Lemma answer_frame_step env sid d s p :
  setRemoteDescription env = Ok tt ->
  pc s = Some p ->
  let s' := step (SocketMessage env (answer_message sid d)) s in
  pcs s' = alter (with_remoteDescription d) p (pcs s) /\
  pc s' = Some p /\
  (ws s' = ws s /\ sockets s' = sockets s /\ localStream s' = localStream s /\
   streams s' = streams s /\ isCallActive s' = isCallActive s) /\
  (sent (trace s') = sent (trace s) /\
   state_changes (trace s') = state_changes (trace s) /\
   errors (trace s') = errors (trace s) /\
   call_ended_count (trace s') = call_ended_count (trace s)).
Proof.
  intros Hr Hp s'. subst s'. cbn [step]. unfold exec, ws_onmessage.
  rewrite dispatch_answer by reflexivity. cbn [msg_sdp answer_message].
  set (s1 := set_trace _ s).
  destruct (handleAnswer_cases env s1 (Some d))
    as (_ & (_ & Hw & Hso & Hl & Hst & Hpc & Hact) & H).
  change (pc s1) with (pc s) in H. rewrite Hp, Hr in H. destruct H as [H Ht].
  rewrite Ht. subst s1. st_simpl.
  rewrite sent_log, state_changes_log, errors_log, call_ended_count_log.
  repeat split; try assumption. rewrite Hpc. exact Hp.
Qed.

(** X11.  A whole call on an open socket: [startCall()], the answer, any
    number of ice candidates, the remote track, then [endCall()], with the
    browser accepting every step.  Afterwards [pc], [localStream] and [ws]
    are null and the call is inactive; the peer connection of the call is
    closed, holding the offer, the answer, all local tracks and the
    candidates in arrival order; every local track is stopped; exactly the
    offer and the call-ended frame were sent; "connecting" and then
    "connected" were reported, [onCallEnded] was invoked once and no error
    was reported.  [remoteStream] is the one field left set. *)
Theorem call_round_trip :
  forall (env : Env) (s : State) (w : nat) (tracks : list Track) (sdp : string)
         (d : SessionDescription) (cs : list IceCandidate) (r : option nat),
    getUserMedia env = Ok tracks ->
    createOffer env = Ok sdp ->
    setLocalDescription env = Ok tt ->
    setRemoteDescription env = Ok tt ->
    addIceCandidate env = Ok tt ->
    ws_open s = Some w ->
    let sid := sessionId (settings s) in
    let offer := mkDesc SdpOffer sdp in
    let s' := run ([CallStartCall env; SocketMessage env (answer_message sid d)]
                   ++ ice_frames env sid cs
                   ++ [PcTrack r; CallEndCall env]) s in
    (pc s' = None /\ localStream s' = None /\ ws s' = None /\
     isCallActive s' = false /\ remoteStream s' = r) /\
    pcs s' !! length (pcs s) =
      Some (mkPeerConnection (Some offer) (Some d)
              (all_tracks_of (length (streams s)) tracks) cs "closed" true) /\
    streams s' !! length (streams s) = Some (map stop tracks) /\
    sent (trace s') =
      sent (trace s) ++ [offer_message sid offer; call_ended_message sid] /\
    state_changes (trace s') =
      state_changes (trace s) ++ ["connecting"; "connected"] /\
    errors (trace s') = errors (trace s) /\
    call_ended_count (trace s') = call_ended_count (trace s) + 1.
Proof.
  intros env s w tracks sdp d cs r Hg Ho Hl Hr Ha Hopen sid offer s'.
  subst s'. rewrite !run_app.
  change (run [CallStartCall env; SocketMessage env (answer_message sid d)] s)
    with (step (SocketMessage env (answer_message sid d))
            (exec (startCall env) s)).
  (* startCall *)
  destruct (startCall_ok_spec env s tracks sdp Hg Ho Hl)
    as (_ & (A0 & A1 & A2 & _) & (A3 & A4 & A5 & A6 & A7) & (T1 & T2 & T3 & T4)).
  fold (exec (startCall env) s) in *. set (s1 := exec (startCall env) s) in *.
  rewrite Hopen in T1. fold sid offer in T1, A6.
  (* the answer *)
  destruct (answer_frame_step env sid d s1 _ Hr A5)
    as (B6 & B5 & (B1 & B2 & B3 & B4 & B7) & (U1 & U2 & U3 & U4)).
  set (s2 := step (SocketMessage env (answer_message sid d)) s1) in *.
  assert (C2 : pcs s2 !! length (pcs s) =
               Some (mkPeerConnection (Some offer) (Some d)
                       (all_tracks_of (length (streams s)) tracks) [] "new" false))
    by now rewrite B6, A6, alter_snoc, lookup_snoc.
  (* the candidates *)
  destruct (ice_frames_run env sid Ha cs s2 _ _ B5 C2)
    as ((c' & D6 & F1 & F2 & F3 & F4 & F5 & F6) & _ & D5
        & (D1 & D2 & D3 & D4 & D7) & (V1 & V2 & V3 & V4)).
  set (s3 := run (ice_frames env sid cs) s2) in *.
  assert (Ec : c' = mkPeerConnection (Some offer) (Some d)
                      (all_tracks_of (length (streams s)) tracks) cs "new" false).
  { destruct c'; cbn in *; congruence. }
  subst c'. clear F1 F2 F3 F4 F5 F6.
  (* the remote track, then endCall *)
  change (run [PcTrack r; CallEndCall env] s3)
    with (exec (endCall env) (exec (pc_ontrack r) s3)).
  set (s4 := exec (pc_ontrack r) s3).
  assert (E4 : ws s4 = ws s3 /\ sockets s4 = sockets s3 /\ pc s4 = pc s3 /\
               pcs s4 = pcs s3 /\ localStream s4 = localStream s3 /\
               streams s4 = streams s3 /\ settings s4 = settings s3 /\
               remoteStream s4 = r /\
               trace s4 = trace s3 ++ [ConsoleLog ["Received remote track"];
                                       OnRemoteStream r;
                                       OnConnectionStateChange "connected"]).
  { subst s4. unfold exec, pc_ontrack, bind, emit, modify. st_simpl.
    rewrite <- !app_assoc. auto 10. }
  destruct E4 as (G1 & G2 & G5 & G6 & G3 & G4 & G0 & G8 & GT).
  destruct (endCall_handles env s4) as (H5 & H3 & H1 & H7 & _ & H8 & _).
  destruct (endCall_objects env s4) as (H6 & H4 & _).
  destruct (endCall_trace env s4) as (W1 & W2 & W3 & W4).
  set (s5 := exec (endCall env) s4) in *.
  assert (Hsid : sessionId (settings s4) = sid).
  { destruct (run_kept (ice_frames env sid cs) s2) as (K3 & _).
    destruct (step_kept (SocketMessage env (answer_message sid d)) s1)
      as (K2 & _).
    rewrite G0. unfold s3. rewrite K3. unfold s2. rewrite K2.
    now rewrite A0. }
  assert (Hopen4 : ws_open s4 = Some w).
  { rewrite (ws_open_eq s3 s4), (ws_open_eq s2 s3), (ws_open_eq s1 s2),
      (ws_open_eq s s1) by assumption. exact Hopen. }
  rewrite Hopen4, Hsid in W1.
  rewrite G5, D5 in H6. rewrite G3, D3, B3, A3 in H4.
  rewrite GT in W1, W2, W3, W4.
  rewrite !sent_app in W1. rewrite !call_ended_count_app in W2.
  rewrite !errors_app in W3. rewrite !state_changes_app in W4.
  change (sent [_; _; _]) with (@nil Message) in W1.
  change (call_ended_count [_; _; _]) with 0 in W2.
  change (errors [_; _; _]) with (@nil string) in W3.
  change (state_changes [_; _; _]) with ["connected"] in W4.
  rewrite app_nil_r in W1, W3. rewrite Nat.add_0_r in W2.
  split; [repeat split; congruence|].
  split; [rewrite H6, G6, list_lookup_alter_eq, D6; reflexivity|].
  split; [rewrite H4, G4, D4, B4, A4, alter_snoc, lookup_snoc; reflexivity|].
  split; [rewrite W1, V1, U1, T1, <- app_assoc; reflexivity|].
  split; [rewrite W4, V2, U2, T2, <- app_assoc; reflexivity|].
  split; [rewrite W3, V3, U3, T3; reflexivity|].
  rewrite W2, V4, U4, T4. reflexivity.
Qed.

Lemma call_round_trip_witness :
  ws_open ex_joined = Some 0 /\
  let s' := run ([CallStartCall ex_env;
                  SocketMessage ex_env
                    (answer_message (Some "S1") (mkDesc SdpAnswer "v=0 remote"))]
                 ++ ice_frames ex_env (Some "S1") ["candidate:1"; "candidate:2"]
                 ++ [PcTrack (Some 7); CallEndCall ex_env]) ex_joined in
  pcs s' !! 0 =
    Some (mkPeerConnection (Some (mkDesc SdpOffer "v=0 local"))
            (Some (mkDesc SdpAnswer "v=0 remote")) [(0, 0); (0, 1)]
            ["candidate:1"; "candidate:2"] "closed" true) /\
  remoteStream s' = Some 7.
Proof.
  split; [reflexivity|].
  destruct (call_round_trip ex_env ex_joined 0 ex_tracks "v=0 local"
              (mkDesc SdpAnswer "v=0 remote") ["candidate:1"; "candidate:2"]
              (Some 7))
    as ((_ & _ & _ & _ & Hrs) & Hpc & _); try reflexivity.
  split; [exact Hpc | exact Hrs].
Defined.

(** ** Toggling twice, and across calls *)

Lemma first_of_kind_set_enabled k b (j : nat) (ts : list Track) :
  first_of_kind k (alter (set_enabled b) j ts) = first_of_kind k ts.
Proof.
  revert j. induction ts as [|t ts IH]; intros [|j]; cbn; try reflexivity.
  now rewrite IH.
Qed.

Lemma toggleVideo_eq s h tracks i :
  localStream s = Some h -> streams s !! h = Some tracks ->
  first_of_kind Video tracks = Some i ->
  let v := negb (isLocalVideoEnabled s) in
  toggleVideo s =
    (set_streams (alter (alter (set_enabled v) i) h (streams s))
       (set_isLocalVideoEnabled v s), Ok v).
Proof.
  intros Hl Hs Hi v. subst v. unfold toggleVideo, bind, gets, modify, ret.
  rewrite Hl. cbn. rewrite Hs. cbn. now rewrite Hi.
Qed.

Lemma toggleAudio_eq s h tracks i :
  localStream s = Some h -> streams s !! h = Some tracks ->
  first_of_kind Audio tracks = Some i ->
  let v := negb (isLocalAudioEnabled s) in
  toggleAudio s =
    (set_streams (alter (alter (set_enabled v) i) h (streams s))
       (set_isLocalAudioEnabled v s), Ok v).
Proof.
  intros Hl Hs Hi v. subst v. unfold toggleAudio, bind, gets, modify, ret.
  rewrite Hl. cbn. rewrite Hs. cbn. now rewrite Hi.
Qed.

Lemma set_enabled_twice a b (ts : list Track) (i : nat) :
  alter (set_enabled a) i (alter (set_enabled b) i ts) = alter (set_enabled a) i ts.
Proof.
  revert i. induction ts as [|t ts IH]; intros [|i]; cbn; try reflexivity.
  now rewrite IH.
Qed.

Lemma set_enabled_same (ts : list Track) (i : nat) t :
  ts !! i = Some t -> alter (set_enabled (enabled t)) i ts = ts.
Proof.
  revert i. induction ts as [|t0 ts IH]; intros [|i]; cbn; try discriminate.
  - intros [= ->]. now destruct t.
  - intros H. now rewrite IH.
Qed.

(** X12.  Two [toggleVideo()] in a row, or two [toggleAudio()], bring the
    flag back to its value; the second returns that value and the first
    track of the kind ends up with [enabled] equal to it.  So when flag and
    track agreed before, the tracks of the stream are exactly as before. *)
Theorem toggle_twice_restores :
  forall (s : State) (h : nat) (tracks : list Track),
    localStream s = Some h -> streams s !! h = Some tracks ->
    (forall i t,
       first_of_kind Video tracks = Some i -> tracks !! i = Some t ->
       let s1 := fst (toggleVideo s) in
       let s2 := fst (toggleVideo s1) in
       snd (toggleVideo s1) = Ok (isLocalVideoEnabled s) /\
       isLocalVideoEnabled s2 = isLocalVideoEnabled s /\
       streams s2 !! h = Some (alter (set_enabled (isLocalVideoEnabled s)) i tracks) /\
       (enabled t = isLocalVideoEnabled s -> streams s2 !! h = Some tracks)) /\
    (forall i t,
       first_of_kind Audio tracks = Some i -> tracks !! i = Some t ->
       let s1 := fst (toggleAudio s) in
       let s2 := fst (toggleAudio s1) in
       snd (toggleAudio s1) = Ok (isLocalAudioEnabled s) /\
       isLocalAudioEnabled s2 = isLocalAudioEnabled s /\
       streams s2 !! h = Some (alter (set_enabled (isLocalAudioEnabled s)) i tracks) /\
       (enabled t = isLocalAudioEnabled s -> streams s2 !! h = Some tracks)).
Proof.
  intros s h tracks Hl Hs. split.
  - intros i t Hi Ht s1 s2. subst s2 s1.
    rewrite (toggleVideo_eq s h tracks i Hl Hs Hi). cbn [fst].
    set (s1 := set_streams _ _).
    assert (Hs1 : streams s1 !! h =
                  Some (alter (set_enabled (negb (isLocalVideoEnabled s))) i tracks))
      by (subst s1; st_simpl; now rewrite list_lookup_alter_eq, Hs).
    assert (Hi1 : first_of_kind Video
                    (alter (set_enabled (negb (isLocalVideoEnabled s))) i tracks) = Some i)
      by now rewrite first_of_kind_set_enabled.
    rewrite (toggleVideo_eq s1 h _ i Hl Hs1 Hi1). cbn [fst snd].
    assert (Hv : negb (isLocalVideoEnabled s1) = isLocalVideoEnabled s)
      by (subst s1; st_simpl; apply negb_involutive).
    rewrite Hv. st_simpl. rewrite list_lookup_alter_eq, Hs1. cbn.
    rewrite set_enabled_twice. repeat split.
    intros <-. now rewrite set_enabled_same.
  - intros i t Hi Ht s1 s2. subst s2 s1.
    rewrite (toggleAudio_eq s h tracks i Hl Hs Hi). cbn [fst].
    set (s1 := set_streams _ _).
    assert (Hs1 : streams s1 !! h =
                  Some (alter (set_enabled (negb (isLocalAudioEnabled s))) i tracks))
      by (subst s1; st_simpl; now rewrite list_lookup_alter_eq, Hs).
    assert (Hi1 : first_of_kind Audio
                    (alter (set_enabled (negb (isLocalAudioEnabled s))) i tracks) = Some i)
      by now rewrite first_of_kind_set_enabled.
    rewrite (toggleAudio_eq s1 h _ i Hl Hs1 Hi1). cbn [fst snd].
    assert (Hv : negb (isLocalAudioEnabled s1) = isLocalAudioEnabled s)
      by (subst s1; st_simpl; apply negb_involutive).
    rewrite Hv. st_simpl. rewrite list_lookup_alter_eq, Hs1. cbn.
    rewrite set_enabled_twice. repeat split.
    intros <-. now rewrite set_enabled_same.
Qed.

Lemma toggle_twice_restores_witness :
  localStream ex_calling = Some 0 /\ streams ex_calling !! 0 = Some ex_tracks /\
  first_of_kind Video ex_tracks = Some 1 /\
  streams (fst (toggleVideo (fst (toggleVideo ex_calling)))) !! 0 = Some ex_tracks.
Proof.
  do 3 (split; [vm_compute; reflexivity|]).
  pose proof (toggle_twice_restores ex_calling 0 ex_tracks
                ltac:(vm_compute; reflexivity) ltac:(vm_compute; reflexivity))
    as (H & _).
  pose proof (H 1 (mkTrack Video true Live)
                ltac:(vm_compute; reflexivity) ltac:(vm_compute; reflexivity))
    as (_ & _ & _ & Hsame).
  apply Hsame. vm_compute. reflexivity.
Defined.

(** X13.  Neither [endCall()] nor [startCall()] resets the toggle flags or
    applies them to the tracks of the new call: after ending a call and
    starting another, both flags are what they were and the new tracks are
    as captured.  So if video was toggled off in the previous call, the new
    call starts with the camera on and the flag off, and the first
    [toggleVideo()] returns [true] without changing the track. *)
Theorem toggle_flags_outlive_the_call :
  forall (env env' : Env) (s : State) (tracks : list Track) (sdp : string),
    getUserMedia env = Ok tracks ->
    createOffer env = Ok sdp ->
    setLocalDescription env = Ok tt ->
    let s1 := exec (startCall env) (exec (endCall env') s) in
    isLocalVideoEnabled s1 = isLocalVideoEnabled s /\
    isLocalAudioEnabled s1 = isLocalAudioEnabled s /\
    stream_of (localStream s1) s1 = tracks /\
    (forall i t,
       first_of_kind Video tracks = Some i -> tracks !! i = Some t ->
       isLocalVideoEnabled s = false -> enabled t = true ->
       snd (toggleVideo s1) = Ok true /\
       stream_of (localStream s1) (fst (toggleVideo s1)) = tracks).
Proof.
  intros env env' s tracks sdp Hg Ho Hd s1.
  destruct (endCall_handles env' s) as (_ & _ & _ & _ & _ & _ & V0 & A0).
  set (s0 := exec (endCall env') s) in *.
  destruct (startCall_ok_spec env s0 tracks sdp Hg Ho Hd)
    as (_ & (_ & _ & _ & _ & V1 & A1) & (L1 & S1 & _) & _).
  fold (exec (startCall env) s0) in *. fold s1 in V1, A1, L1, S1.
  assert (Hs : streams s1 !! length (streams s0) = Some tracks)
    by now rewrite S1, lookup_snoc.
  assert (Hst : stream_of (localStream s1) s1 = tracks)
    by (unfold stream_of; now rewrite L1, Hs).
  repeat split; try congruence.
  - rewrite (toggleVideo_eq s1 _ tracks i L1 Hs H). cbn [snd].
    now rewrite V1, V0, H1.
  - rewrite (toggleVideo_eq s1 _ tracks i L1 Hs H). cbn [fst].
    unfold stream_of. st_simpl. rewrite L1, list_lookup_alter_eq, Hs. cbn.
    rewrite V1, V0, H1. cbn. rewrite <- H2. now apply set_enabled_same.
Qed.

Lemma toggle_flags_outlive_the_call_witness :
  getUserMedia ex_env = Ok ex_tracks /\
  let s := fst (toggleVideo ex_calling) in
  let s1 := exec (startCall ex_env) (exec (endCall ex_env) s) in
  isLocalVideoEnabled s = false /\
  isLocalVideoEnabled s1 = false /\
  stream_of (localStream s1) s1 = ex_tracks /\
  snd (toggleVideo s1) = Ok true.
Proof.
  split; [reflexivity|]. cbv zeta.
  destruct (toggle_flags_outlive_the_call ex_env ex_env (fst (toggleVideo ex_calling))
              ex_tracks "v=0 local") as (Hv & _ & Hs & H); try reflexivity.
  pose proof (H 1 (mkTrack Video true Live)
                ltac:(vm_compute; reflexivity) ltac:(vm_compute; reflexivity)
                ltac:(vm_compute; reflexivity) ltac:(vm_compute; reflexivity))
    as (Hr & _).
  split; [vm_compute; reflexivity|].
  split; [rewrite Hv; vm_compute; reflexivity|].
  split; [exact Hs | exact Hr].
Defined.

(** ** The socket URL *)

Lemma replace_absent pat rep s : occurs pat s = false -> replace pat rep s = s.
Proof.
  induction s as [|c s IH]; cbn [occurs replace]; intros H;
    apply orb_false_elim in H as [Hp Hs]; rewrite Hp; [reflexivity|].
  now rewrite IH.
Qed.

Lemma prefix_empty s : String.prefix "" s = true.
Proof. now destruct s. Qed.

(** Run [replace] and [prefix] over the characters that are known. *)
Ltac string_steps :=
  cbn [replace String.prefix String.length skip Ascii.ascii_dec
       Ascii.ascii_rec Ascii.ascii_rect Bool.bool_dec bool_rec bool_rect
       sumbool_rec sumbool_rect eq_rec_r eq_rec eq_rect eq_sym f_equal].

(** X14.  The socket URL is the endpoint with its scheme rewritten: an
    [https://] endpoint becomes [wss://], an [http://] endpoint becomes
    [ws://], and an endpoint that contains neither text (one that is already
    a [ws://] or [wss://] URL) is used as it is.  The second replacement
    runs on the result of the first, so in an [https://] endpoint the first
    [http://] further on, if there is one, is rewritten as well. *)
Theorem socket_url_scheme :
  forall rest : string,
    ws_scheme ("https://" +:+ rest) = "wss://" +:+ replace "http://" "ws://" rest /\
    (occurs "http://" rest = false ->
       ws_scheme ("https://" +:+ rest) = "wss://" +:+ rest) /\
    (occurs "https://" rest = false ->
       ws_scheme ("http://" +:+ rest) = "ws://" +:+ rest) /\
    (occurs "https://" rest = false -> occurs "http://" rest = false ->
       ws_scheme rest = rest).
Proof.
  intros rest.
  assert (H1 : ws_scheme ("https://" +:+ rest)
               = "wss://" +:+ replace "http://" "ws://" rest).
  { unfold ws_scheme. cbv [String.append]. string_steps.
    rewrite prefix_empty. string_steps. reflexivity. }
  split; [exact H1|]. split; [|split].
  - intros H. rewrite H1. rewrite (replace_absent _ _ rest H). reflexivity.
  - intros H. unfold ws_scheme. cbv [String.append]. string_steps.
    rewrite (replace_absent _ _ rest H). string_steps.
    rewrite prefix_empty. reflexivity.
  - intros Hs H. unfold ws_scheme.
    rewrite (replace_absent _ _ rest Hs). exact (replace_absent _ _ rest H).
Qed.

Lemma socket_url_scheme_witness :
  occurs "http://" "signal.example/prod" = false /\
  occurs "https://" "signal.example/prod" = false /\
  ws_scheme "https://signal.example/prod" = "wss://signal.example/prod" /\
  ws_scheme "http://signal.example/prod" = "ws://signal.example/prod" /\
  ws_scheme "https://a.example/?next=http://b.example"
    = "wss://a.example/?next=ws://b.example".
Proof.
  do 2 (split; [vm_compute; reflexivity|]).
  destruct (socket_url_scheme "signal.example/prod") as (_ & H1 & H2 & _).
  split; [exact (H1 ltac:(vm_compute; reflexivity))|].
  split; [exact (H2 ltac:(vm_compute; reflexivity))|].
  destruct (socket_url_scheme "a.example/?next=http://b.example") as (H & _).
  etransitivity; [exact H|]. vm_compute. reflexivity.
Defined.

(** ** js/admin-script.js *)

Section Menu.

Implicit Types (a : list bool) (ps : list nat).

Lemma clear_length ps a :
  length (fold_left (fun a p => <[p:=false]> a) ps a) = length a.
Proof.
  revert a. induction ps as [|p ps IH]; intros a; cbn; [reflexivity|].
  now rewrite IH, length_insert.
Qed.

Lemma clear_lookup ps a q :
  q < length a ->
  fold_left (fun a p => <[p:=false]> a) ps a !! q =
    if bool_decide (q ∈ ps) then Some false else a !! q.
Proof.
  revert a. induction ps as [|p ps IH]; intros a Hq; cbn.
  - reflexivity.
  - rewrite IH by now rewrite length_insert.
    destruct (decide (q = p)) as [->|Hne].
    + rewrite list_lookup_insert_eq by exact Hq.
      rewrite (bool_decide_eq_true_2 (p ∈ p :: ps)) by constructor.
      now destruct (bool_decide (p ∈ ps)).
    + rewrite list_lookup_insert_ne by congruence.
      destruct (decide (q ∈ ps)) as [Hin|Hout].
      * rewrite !bool_decide_eq_true_2; [reflexivity | now constructor | exact Hin].
      * rewrite !bool_decide_eq_false_2; [reflexivity | | exact Hout].
        intros Hin. apply elem_of_cons in Hin as [?|?]; congruence.
Qed.

End Menu.

(** X15.  A click on a side-menu entry leaves exactly that entry marked:
    the parent of the clicked anchor carries the class 'active', the parent
    of every other matched anchor does not, and elements that are the
    parent of no matched anchor keep their classes. *)
Theorem menu_click_marks_one_entry :
  forall (pg : Page) (k li : nat),
    anchors pg !! k = Some li ->
    li < length (active pg) ->
    let pg' := click_menu k pg in
    active pg' !! li = Some true /\
    (forall p, p ∈ anchors pg -> p <> li -> p < length (active pg) ->
               active pg' !! p = Some false) /\
    (forall q, q ∉ anchors pg -> active pg' !! q = active pg !! q) /\
    anchors pg' = anchors pg /\ sidebar pg' = sidebar pg.
Proof.
  intros pg k li Hk Hli pg'. subst pg'. unfold click_menu. rewrite Hk. cbn.
  repeat split.
  - apply list_lookup_insert_eq. now rewrite clear_length.
  - intros p Hin Hne Hp. rewrite list_lookup_insert_ne by congruence.
    rewrite clear_lookup by exact Hp. now rewrite bool_decide_eq_true_2.
  - intros q Hout.
    assert (Hne : li <> q).
    { intros ->. apply Hout. eapply list_elem_of_lookup_2, Hk. }
    rewrite list_lookup_insert_ne by exact Hne.
    destruct (decide (q < length (active pg))) as [Hq|Hq].
    + rewrite clear_lookup by exact Hq. now rewrite bool_decide_eq_false_2.
    + rewrite !lookup_ge_None_2; [reflexivity | lia | rewrite clear_length; lia].
Qed.

Lemma menu_click_marks_one_entry_witness :
  let pg := mkPage [0; 2; 3] [true; true; false; false] (Some false) "" "" in
  anchors pg !! 1 = Some 2 /\
  active (click_menu 1 pg) !! 2 = Some true /\
  active (click_menu 1 pg) !! 0 = Some false /\
  active (click_menu 1 pg) !! 1 = Some true.
Proof.
  intros pg. split; [reflexivity|].
  destruct (menu_click_marks_one_entry pg 1 2 eq_refl ltac:(cbn; lia))
    as (H2 & H0 & H1 & _).
  split; [exact H2|]. split.
  - apply H0; [repeat constructor | discriminate | cbn; lia].
  - rewrite H1; [reflexivity|].
    intros Hin. repeat (apply elem_of_cons in Hin as [Hin|Hin]; [discriminate|]).
    inversion Hin.
Defined.

Lemma clicks_snoc cs c pg : clicks (cs ++ [c]) pg = click c (clicks cs pg).
Proof. unfold clicks. now rewrite fold_left_app. Qed.

(** X16.  On a page with a sidebar, every click on an arrow flips the
    sidebar's 'hide' class, so after any sequence of clicks the sidebar is
    hidden or not according to the parity of their number; and after the
    last click exactly one arrow is displayed: the right one after a click
    on the left one, the left one after a click on the right one. *)
Theorem arrow_clicks_flip_the_sidebar :
  forall (cs : list Click) (pg : Page) (h : bool),
    sidebar pg = Some h ->
    sidebar (clicks cs pg) = Some (xorb h (Nat.odd (length cs))) /\
    (forall c, last cs = Some c ->
       (left_display (clicks cs pg), right_display (clicks cs pg)) =
         match c with
         | ClickLeft => ("none", "block")
         | ClickRight => ("block", "none")
         end) /\
    anchors (clicks cs pg) = anchors pg /\ active (clicks cs pg) = active pg.
Proof.
  induction cs as [|c cs IH] using rev_ind; intros pg h Hs.
  - cbn. rewrite xorb_false_r. repeat split; auto. discriminate.
  - destruct (IH pg h Hs) as (H1 & _ & H3 & H4).
    rewrite clicks_snoc, length_app, Nat.add_comm. cbn [length Nat.add].
    rewrite Nat.odd_succ, <- Nat.negb_odd.
    split; [|split].
    + destruct c; cbn; unfold click_left, click_right; rewrite H1; cbn;
        f_equal; now destruct h, (Nat.odd (length cs)).
    + intros c' Hl. rewrite last_snoc in Hl. injection Hl as <-.
      destruct c; cbn; unfold click_left; rewrite ?H1; reflexivity.
    + destruct c; cbn; unfold click_left; rewrite ?H1; cbn; auto.
Qed.

Lemma arrow_clicks_flip_the_sidebar_witness :
  let pg := mkPage [] [] (Some false) "" "" in
  sidebar pg = Some false /\
  sidebar (clicks [ClickLeft; ClickRight; ClickLeft] pg) = Some true /\
  left_display (clicks [ClickLeft; ClickRight; ClickLeft] pg) = "none".
Proof.
  intros pg. split; [reflexivity|].
  destruct (arrow_clicks_flip_the_sidebar [ClickLeft; ClickRight; ClickLeft] pg
              false eq_refl) as (H1 & H2 & _).
  split; [exact H1|].
  exact (f_equal fst (H2 ClickLeft eq_refl)).
Defined.

(** ** Events of the peer connection *)

Lemma remote_streams_app t u :
  remote_streams (t ++ u) = remote_streams t ++ remote_streams u.
Proof. apply omap_app. Qed.

(** X17.  The track listener runs once per remote track, not once per
    call: after [n] track events [onRemoteStream] was invoked [n] times,
    with the stream of each event in turn, ["connected"] was reported [n]
    times, and [remoteStream] is the stream of the last event. *)
Theorem every_remote_track_is_reported :
  forall (rs : list (option nat)) (s : State),
    let s' := run (map PcTrack rs) s in
    remote_streams (trace s') = remote_streams (trace s) ++ rs /\
    state_changes (trace s') =
      state_changes (trace s) ++ repeat "connected" (length rs) /\
    remoteStream s' = default (remoteStream s) (last rs) /\
    errors (trace s') = errors (trace s) /\
    sent (trace s') = sent (trace s).
Proof.
  induction rs as [|r rs IH] using rev_ind; intros s s'; subst s'.
  - cbn. now rewrite !app_nil_r.
  - rewrite map_app, run_app. cbn [map run fold_left step].
    destruct (IH s) as (H1 & H2 & H3 & H4 & H5).
    set (s1 := run (map PcTrack rs) s) in *.
    unfold exec, pc_ontrack, bind, emit, modify. st_simpl.
    rewrite !remote_streams_app, !state_changes_app, !errors_app, !sent_app.
    rewrite H1, H2, H4, H5, last_snoc, length_app, repeat_app.
    cbn. now rewrite !app_nil_r, <- !app_assoc.
Qed.

Lemma ice_candidate_event_open s w candidate :
  ws_open s = Some w ->
  let s' := step (PcIceCandidate candidate) s in
  sent (trace s') =
    sent (trace s) ++
    match candidate with
    | Some c => [ice_message (sessionId (settings s)) c]
    | None => []
    end /\
  ws_open s' = Some w /\ settings s' = settings s /\
  errors (trace s') = errors (trace s) /\
  state_changes (trace s') = state_changes (trace s).
Proof.
  intros Hopen s'. subst s'. cbn [step].
  change (wp (pc_onicecandidate candidate)
            (fun s' _ =>
               sent (trace s') =
                 sent (trace s) ++
                 match candidate with
                 | Some c => [ice_message (sessionId (settings s)) c]
                 | None => []
                 end /\
               ws_open s' = Some w /\ settings s' = settings s /\
               errors (trace s') = errors (trace s) /\
               state_changes (trace s') = state_changes (trace s)) s).
  unfold pc_onicecandidate. wp_run.
  - wp_done.
  - rewrite app_nil_r. auto.
Qed.

(** X18.  While the socket is open, every local candidate the browser
    discovers is relayed, in discovery order, as an ice-candidate frame
    with the instance's session id; the null candidate that marks the end
    of gathering is not relayed. *)
Theorem local_candidates_are_relayed_in_order :
  forall (found : list (option IceCandidate)) (s : State) (w : nat),
    ws_open s = Some w ->
    let s' := run (map PcIceCandidate found) s in
    sent (trace s') =
      sent (trace s) ++ map (ice_message (sessionId (settings s))) (omap id found) /\
    errors (trace s') = errors (trace s) /\
    state_changes (trace s') = state_changes (trace s).
Proof.
  induction found as [|c found IH]; intros s w Hopen s'; subst s'.
  - cbn. now rewrite app_nil_r.
  - change (run (map PcIceCandidate (c :: found)) s)
      with (run (map PcIceCandidate found) (step (PcIceCandidate c) s)).
    destruct (ice_candidate_event_open s w c Hopen) as (H1 & H2 & H3 & H4 & H5).
    set (s1 := step (PcIceCandidate c) s) in *.
    destruct (IH s1 w H2) as (I1 & I2 & I3).
    rewrite I1, I2, I3, H1, H3, H4, H5, <- app_assoc.
    repeat split. f_equal. now destruct c.
Qed.

Lemma local_candidates_are_relayed_in_order_witness :
  ws_open ex_calling = Some 0 /\
  sent (trace (run (map PcIceCandidate [Some "candidate:1"; Some "candidate:2"; None])
                 ex_calling)) =
    sent (trace ex_calling) ++
    [ice_message (Some "S1") "candidate:1"; ice_message (Some "S1") "candidate:2"].
Proof.
  split; [reflexivity|].
  apply (local_candidates_are_relayed_in_order
           [Some "candidate:1"; Some "candidate:2"; None] ex_calling 0).
  reflexivity.
Defined.
